(** * Breakout: the fixed-step simulation and its collision engine

    A shallow embedding of [breakout4k.py].  Rectangles are pygame's
    [Rect]: four integers [x], [y], [w], [h] with derived edges.  Python
    floats (the velocity, the launch angle, the random draws) are
    idealised as real numbers: negation, [abs] and comparison are exact on
    floats, and rounding of products, [sin], [cos] and [hypot] is left
    out.  The random generator is an input: every call of
    [reset_ball_paddle] receives the two numbers it would draw. *)

From Stdlib Require Import ZArith List Bool Lia Reals Lra.
Import ListNotations.

Open Scope Z_scope.

(** ** pygame.Rect *)

Module Rect.

Record t : Type := mk { x : Z; y : Z; w : Z; h : Z }.

Definition left (r : t) : Z := x r.
Definition top (r : t) : Z := y r.
Definition right (r : t) : Z := x r + w r.
Definition bottom (r : t) : Z := y r + h r.
Definition width (r : t) : Z := w r.
(* C integer division of the width; the widths here are positive *)
Definition centerx (r : t) : Z := x r + Z.quot (w r) 2.

Definition set_x (v : Z) (r : t) : t := mk v (y r) (w r) (h r).
Definition set_y (v : Z) (r : t) : t := mk (x r) v (w r) (h r).
Definition set_left (v : Z) (r : t) : t := set_x v r.
Definition set_top (v : Z) (r : t) : t := set_y v r.
Definition set_right (v : Z) (r : t) : t := set_x (v - w r) r.
Definition set_bottom (v : Z) (r : t) : t := set_y (v - h r) r.
Definition set_centerx (v : Z) (r : t) : t := set_x (v - Z.quot (w r) 2) r.

(** [colliderect]: rectangles of zero width or height collide with
    nothing; otherwise the open interiors must overlap on both axes
    (edges are normalised, so negative sizes are accepted). *)
Definition colliderect (a b : t) : bool :=
  if (w a =? 0) || (h a =? 0) || (w b =? 0) || (h b =? 0) then false
  else (Z.min (x a) (x a + w a) <? Z.max (x b) (x b + w b))
    && (Z.min (y a) (y a + h a) <? Z.max (y b) (y b + h b))
    && (Z.max (x a) (x a + w a) >? Z.min (x b) (x b + w b))
    && (Z.max (y a) (y a + h a) >? Z.min (y b) (y b + h b)).

End Rect.

(** ** Window and game constants *)

Definition WIN_W : Z := 800.
Definition WIN_H : Z := 600.
Definition DT : R := (1 / 60)%R.

Definition PADDLE_W : Z := 100.
Definition PADDLE_H : Z := 14.
Definition PADDLE_Y : Z := 560.

Definition BALL_SIZE : Z := 10.
Definition BALL_SPEED : R := 320%R.

Definition BRICK_COLS : nat := 10.
Definition BRICK_ROWS : nat := 6.
Definition BRICK_W : Z := 70.
Definition BRICK_H : Z := 22.
Definition BRICK_TOP : Z := 80.
Definition BRICK_LEFT : Z := 65.
Definition BRICK_GAP : Z := 6.

Definition START_LIVES : Z := 3.

(** ** Bricks *)

Definition brick_rect (r c : nat) : Rect.t :=
  Rect.mk (BRICK_LEFT + Z.of_nat c * (BRICK_W + BRICK_GAP))
          (BRICK_TOP + Z.of_nat r * (BRICK_H + BRICK_GAP))
          BRICK_W BRICK_H.

(** The grid is a list of rows of integers, [1] alive and [0] dead. *)
Definition Grid : Type := list (list Z).

Definition reset_bricks : Grid := repeat (repeat 1 BRICK_COLS) BRICK_ROWS.

Definition row_cleared (row : list Z) : bool := forallb (fun b => b =? 0) row.

Definition all_bricks_cleared (bricks : Grid) : bool := forallb row_cleared bricks.

(** The velocity [vel = [vx, vy]]; [vy > 0] is downward. *)
Definition Vel : Type := (R * R)%type.

(** ** Penetration-based reflection *)

Definition left_pen (ball rb : Rect.t) : Z := Rect.right rb - Rect.left ball.
Definition right_pen (ball rb : Rect.t) : Z := Rect.right ball - Rect.left rb.
Definition top_pen (ball rb : Rect.t) : Z := Rect.bottom rb - Rect.top ball.
Definition bot_pen (ball rb : Rect.t) : Z := Rect.bottom ball - Rect.top rb.

(** The running minimum of [reflect_from_brick] with its normal
    [(nx, ny)], after the three comparisons. *)
Definition pick_normal (ball rb : Rect.t) : Z * (Z * Z) :=
  let s0 := (left_pen ball rb, (1, 0)) in
  let s1 := if right_pen ball rb <? fst s0 then (right_pen ball rb, (-1, 0)) else s0 in
  let s2 := if top_pen ball rb <? fst s1 then (top_pen ball rb, (0, 1)) else s1 in
  let s3 := if bot_pen ball rb <? fst s2 then (bot_pen ball rb, (0, -1)) else s2 in
  s3.

Definition reflect_from_brick (ball rb : Rect.t) (vel : Vel) : Rect.t * Vel :=
  let '(nx, ny) := snd (pick_normal ball rb) in
  let '(ball1, vel1) :=
    if negb (nx =? 0) then
      (if nx >? 0 then Rect.set_left (Rect.right rb + 1) ball
       else Rect.set_right (Rect.left rb - 1) ball,
       ((- fst vel)%R, snd vel))
    else (ball, vel) in
  if negb (ny =? 0) then
    (if ny >? 0 then Rect.set_top (Rect.bottom rb + 1) ball1
     else Rect.set_bottom (Rect.top rb - 1) ball1,
     (fst vel1, (- snd vel1)%R))
  else (ball1, vel1).

(** ** Game state *)

Record State : Type := mkState {
  bricks : Grid;
  paddle : Rect.t;
  ball : Rect.t;
  vel : Vel;
  lives : Z;
  score : Z;
  paused : bool;
  game_over : bool;
  is_win : bool
}.

Definition set_ball (b : Rect.t) (s : State) : State :=
  mkState (bricks s) (paddle s) b (vel s) (lives s) (score s)
          (paused s) (game_over s) (is_win s).

Definition set_vel (v : Vel) (s : State) : State :=
  mkState (bricks s) (paddle s) (ball s) v (lives s) (score s)
          (paused s) (game_over s) (is_win s).

Definition set_paddle (p : Rect.t) (s : State) : State :=
  mkState (bricks s) p (ball s) (vel s) (lives s) (score s)
          (paused s) (game_over s) (is_win s).

(** The displayed states of the game. *)
Inductive Phase : Type := Playing | Paused | Won | Lost.

Definition phase_of (s : State) : Phase :=
  if game_over s then (if is_win s then Won else Lost)
  else if paused s then Paused else Playing.

(** ** Launch *)

(** The two numbers [rng.random()] returns in one call of
    [reset_ball_paddle], in the order they are drawn. *)
Definition Draw : Type := (R * R)%type.

Definition valid_draw (d : Draw) : Prop :=
  (0 <= fst d < 1 /\ 0 <= snd d < 1)%R.

Definition launch_angle (d : Draw) : R := (PI / 4 + fst d * (PI / 2))%R.

Definition dir_sign (d : Draw) : R :=
  if Rlt_dec (snd d) (1 / 2) then (-1)%R else 1%R.

Definition launch_vel (d : Draw) : Vel :=
  ((cos (launch_angle d) * BALL_SPEED * dir_sign d)%R,
   (- Rabs (sin (launch_angle d) * BALL_SPEED))%R).

Definition start_paddle : Rect.t :=
  Rect.mk ((WIN_W - PADDLE_W) / 2) PADDLE_Y PADDLE_W PADDLE_H.

Definition start_ball : Rect.t :=
  Rect.mk (WIN_W / 2 - BALL_SIZE / 2) (WIN_H / 2 + 60) BALL_SIZE BALL_SIZE.

Definition reset_ball_paddle (d : Draw) : Rect.t * Rect.t * Vel :=
  (start_paddle, start_ball, launch_vel d).

(** The state [main] builds before its loop, and again on the [R] key. *)
Definition new_game (d : Draw) : State :=
  let '(p, b, v) := reset_ball_paddle d in
  mkState reset_bricks p b v START_LIVES 0 false false false.

(** ** One fixed step *)

(** Python's [int] on a float: truncation toward zero. *)
Definition py_int (r : R) : Z :=
  if Rle_dec 0 r then Int_part r else - Int_part (- r).

Definition move_phase (s : State) : State :=
  let b := ball s in
  let b1 := Rect.set_x (Rect.x b + py_int (fst (vel s) * DT)) b in
  let b2 := Rect.set_y (Rect.y b1 + py_int (snd (vel s) * DT)) b1 in
  set_ball b2 s.

Definition walls_phase (s : State) : State :=
  let s1 :=
    if Rect.left (ball s) <=? 0 then
      set_vel (Rabs (fst (vel s)), snd (vel s)) (set_ball (Rect.set_left 0 (ball s)) s)
    else if Rect.right (ball s) >=? WIN_W then
      set_vel ((- Rabs (fst (vel s)))%R, snd (vel s))
              (set_ball (Rect.set_right WIN_W (ball s)) s)
    else s in
  if Rect.top (ball s1) <=? 0 then
    set_vel (fst (vel s1), Rabs (snd (vel s1))) (set_ball (Rect.set_top 0 (ball s1)) s1)
  else s1.

(** The test of the life-loss branch. *)
Definition ball_lost (s : State) : bool := Rect.top (ball s) >? WIN_H.

Definition bottom_phase (d : Draw) (s : State) : State :=
  if ball_lost s then
    let lives1 := lives s - 1 in
    if lives1 <=? 0 then
      mkState (bricks s) (paddle s) (ball s) (vel s) lives1 (score s)
              (paused s) true false
    else
      let '(p, b, v) := reset_ball_paddle d in
      mkState (bricks s) p b v lives1 (score s)
              (paused s) (game_over s) (is_win s)
  else s.

Definition hypot (a b : R) : R := sqrt (a * a + b * b).

Definition paddle_hits (s : State) : bool :=
  Rect.colliderect (ball s) (paddle s)
  && (if Rlt_dec 0 (snd (vel s)) then true else false).

Definition paddle_hit_pos (s : State) : R :=
  (IZR (Rect.centerx (ball s) - Rect.left (paddle s))
   / IZR (Rect.width (paddle s)))%R.

Definition paddle_angle (s : State) : R :=
  ((paddle_hit_pos s - 1 / 2) * (PI / (12 / 10)))%R.

Definition paddle_phase (s : State) : State :=
  if paddle_hits s then
    let ang := paddle_angle s in
    let speed := hypot (fst (vel s)) (snd (vel s)) in
    set_ball (Rect.set_bottom (Rect.top (paddle s) - 1) (ball s))
      (set_vel ((speed * sin ang)%R, (- Rabs (speed * cos ang))%R) s)
  else s.

(** *** The brick scan *)

(** Indexing a Python list outside its length raises [IndexError]. *)
Inductive result (A : Type) : Type :=
| Ok (a : A)
| IndexError.
Arguments Ok {A} a.
Arguments IndexError {A}.

Definition bind {A B : Type} (m : result A) (f : A -> result B) : result B :=
  match m with
  | Ok a => f a
  | IndexError => IndexError
  end.

Notation "x <- m ;; k" := (bind m (fun x => k))
  (at level 61, m at next level, right associativity).

(** [bricks[r][c]] *)
Definition get_brick (g : Grid) (r c : nat) : result Z :=
  match nth_error g r with
  | Some row => match nth_error row c with
                | Some b => Ok b
                | None => IndexError
                end
  | None => IndexError
  end.

Fixpoint set_nth {A : Type} (n : nat) (v : A) (l : list A) : list A :=
  match l, n with
  | [], _ => []
  | _ :: t, O => v :: t
  | a :: t, S n' => a :: set_nth n' v t
  end.

(** [bricks[r][c] = v], used only after [bricks[r][c]] was read.  The rows
    of [reset_bricks] are distinct lists, so one cell changes. *)
Definition set_brick (g : Grid) (r c : nat) (v : Z) : Grid :=
  match nth_error g r with
  | Some row => set_nth r (set_nth c v row) g
  | None => g
  end.

(** The body of [if ball.colliderect(rb):] up to its [break]. *)
Definition hit_brick (r c : nat) (s : State) : State :=
  let '(b, v) := reflect_from_brick (ball s) (brick_rect r c) (vel s) in
  let g := set_brick (bricks s) r c 0 in
  let cleared := all_bricks_cleared g in
  mkState g (paddle s) b v (lives s) (score s + 10) (paused s)
          (if cleared then true else game_over s)
          (if cleared then true else is_win s).

(** The inner [for c in range(BRICK_COLS)]; the flag is [hit_brick]. *)
Fixpoint scan_cols (r : nat) (cs : list nat) (s : State) : result (State * bool) :=
  match cs with
  | [] => Ok (s, false)
  | c :: cs' =>
      b <- get_brick (bricks s) r c ;;
      if b =? 0 then scan_cols r cs' s
      else if Rect.colliderect (ball s) (brick_rect r c)
           then Ok (hit_brick r c s, true)
           else scan_cols r cs' s
  end.

(** The outer [for r in range(BRICK_ROWS)], which leaves at once when the
    flag is set. *)
Fixpoint scan_rows (rs : list nat) (st : State * bool) : result (State * bool) :=
  match rs with
  | [] => Ok st
  | r :: rs' =>
      if snd st then Ok st
      else st' <- scan_cols r (seq 0 BRICK_COLS) (fst st) ;; scan_rows rs' st'
  end.

Definition bricks_phase (s : State) : result State :=
  st <- scan_rows (seq 0 BRICK_ROWS) (s, false) ;; Ok (fst st).

(** The body of [while acc >= DT], without the accumulator. *)
Definition fixed_step (d : Draw) (s : State) : result State :=
  if negb (paused s) && negb (game_over s) then
    bricks_phase (paddle_phase (bottom_phase d (walls_phase (move_phase s))))
  else Ok s.

(** ** The frame loop as events *)

Inductive Event : Type :=
| KeyP
| KeyR (d : Draw)
| Mouse (mx : Z)
| Tick (d : Draw).

Definition toggle_pause (s : State) : State :=
  mkState (bricks s) (paddle s) (ball s) (vel s) (lives s) (score s)
          (negb (paused s)) (game_over s) (is_win s).

Definition mouse_control (mx : Z) (s : State) : State :=
  if negb (game_over s) then
    let p1 := Rect.set_centerx mx (paddle s) in
    let p2 := if Rect.left p1 <? 0 then Rect.set_left 0 p1 else p1 in
    let p3 := if Rect.right p2 >? WIN_W then Rect.set_right WIN_W p2 else p2 in
    set_paddle p3 s
  else s.

Definition handle (e : Event) (s : State) : result State :=
  match e with
  | KeyP => Ok (toggle_pause s)
  | KeyR d => Ok (new_game d)
  | Mouse mx => Ok (mouse_control mx s)
  | Tick d => fixed_step d s
  end.

(** The states the program can be in between two events. *)
Inductive reachable : State -> Prop :=
| reach_start d : reachable (new_game d)
| reach_event e s s' : reachable s -> handle e s = Ok s' -> reachable s'.

(** ** Vocabulary of the properties *)

(** The four sides in the order [reflect_from_brick] examines them. *)
Inductive Side : Type := SLeft | SRight | STop | SBottom.

Definition side_rank (sd : Side) : nat :=
  match sd with SLeft => 0 | SRight => 1 | STop => 2 | SBottom => 3 end.

Definition pen (sd : Side) (ball rb : Rect.t) : Z :=
  match sd with
  | SLeft => left_pen ball rb
  | SRight => right_pen ball rb
  | STop => top_pen ball rb
  | SBottom => bot_pen ball rb
  end.

(** [sd] has minimum penetration, and every side examined before it has a
    strictly larger one: the first minimum in examination order. *)
Definition first_min (sd : Side) (ball rb : Rect.t) : Prop :=
  (forall sd', pen sd ball rb <= pen sd' ball rb) /\
  (forall sd', (side_rank sd' < side_rank sd)%nat -> pen sd ball rb < pen sd' ball rb).

(** The side [reflect_from_brick] settles on, read off its normal. *)
Definition chosen_side (ball rb : Rect.t) : Side :=
  match snd (pick_normal ball rb) with
  | (0, ny) => if ny >? 0 then STop else SBottom
  | (nx, _) => if nx >? 0 then SLeft else SRight
  end.


(** The shapes [reset_ball_paddle] and [reset_bricks] create, which no
    assignment of the program changes. *)
Definition ball_shape (b : Rect.t) : Prop :=
  Rect.w b = BALL_SIZE /\ Rect.h b = BALL_SIZE.

Definition paddle_shape (p : Rect.t) : Prop :=
  Rect.y p = PADDLE_Y /\ Rect.w p = PADDLE_W /\ Rect.h p = PADDLE_H.

Definition grid_shape (g : Grid) : Prop :=
  length g = BRICK_ROWS /\ Forall (fun row => length row = BRICK_COLS) g.

(** The ball's box does not stick out of the window on the left, the
    right or the top. *)
Definition in_window (b : Rect.t) : Prop :=
  0 <= Rect.left b /\ Rect.right b <= WIN_W /\ 0 <= Rect.top b.

Record wf (s : State) : Prop := mkWf {
  wf_ball : ball_shape (ball s);
  wf_paddle : paddle_shape (paddle s);
  wf_grid : grid_shape (bricks s);
  wf_window : in_window (ball s)
}.

(** Cell [(r, c)] holds an alive brick that the ball's box intersects. *)
Definition hittable (s : State) (r c : nat) : bool :=
  match get_brick (bricks s) r c with
  | Ok b => negb (b =? 0) && Rect.colliderect (ball s) (brick_rect r c)
  | IndexError => false
  end.

(** Row-major order on cells. *)
Definition before (r' c' r c : nat) : Prop :=
  (r' < r)%nat \/ (r' = r /\ (c' < c)%nat).

Definition in_grid (r c : nat) : Prop := (r < BRICK_ROWS)%nat /\ (c < BRICK_COLS)%nat.

Definition dead_in_row (row : list Z) : Z :=
  Z.of_nat (count_occ Z.eq_dec row 0).

Definition dead_count (g : Grid) : Z :=
  fold_right (fun row n => dead_in_row row + n) 0 g.

(** Every cell of the grid is dead. *)
Definition all_dead (g : Grid) : Prop :=
  forall r c b, get_brick g r c = Ok b -> b = 0.

(** Some cell of row [r] is hittable. *)
Definition row_hittable (s : State) (r : nat) : bool :=
  match find (hittable s r) (seq 0 BRICK_COLS) with
  | Some _ => true
  | None => false
  end.

(** The state the scan of a fixed step starts from. *)
Definition before_scan (d : Draw) (s : State) : State :=
  paddle_phase (bottom_phase d (walls_phase (move_phase s))).

(** A ball lying across the gap between the first two bricks of the top
    row intersects both; the scan kills the first and keeps the second. *)
Definition straddling : State :=
  mkState reset_bricks start_paddle (Rect.mk 133 90 BALL_SIZE BALL_SIZE)
          (0%R, (-320)%R) START_LIVES 0 false false false.

(** The ball's box lies inside the window on all four sides. *)
Definition fully_in_window (b : Rect.t) : Prop :=
  0 <= Rect.left b /\ Rect.right b <= WIN_W /\
  0 <= Rect.top b /\ Rect.bottom b <= WIN_H.

(** A ball falling straight down beside the paddle, after it broke the
    brick of row 5, column 4. *)
Definition falling : State :=
  mkState (set_brick reset_bricks 5 4 0) (Rect.mk 0 PADDLE_Y PADDLE_W PADDLE_H)
          (Rect.mk 395 588 BALL_SIZE BALL_SIZE) (0%R, 320%R)
          START_LIVES 10 false false false.

(** The same ball one step before it leaves the window for good. *)
Definition leaving : State :=
  mkState (set_brick reset_bricks 5 4 0) (Rect.mk 0 PADDLE_Y PADDLE_W PADDLE_H)
          (Rect.mk 395 598 BALL_SIZE BALL_SIZE) (0%R, 320%R)
          START_LIVES 10 false false false.

(** A ball about to cross the left edge, moving up and to the left. *)
Definition near_left_wall : State :=
  mkState reset_bricks start_paddle (Rect.mk 2 300 BALL_SIZE BALL_SIZE)
          ((-250)%R, (-200)%R) START_LIVES 0 false false false.

(** What holds between two events of a game. *)
Record inv (s : State) : Prop := mkInv {
  inv_wf : wf s;
  inv_score : score s = 10 * dead_count (bricks s);
  inv_win : is_win s = all_bricks_cleared (bricks s);
  inv_over : is_win s = true -> game_over s = true;
  inv_lives : game_over s = false -> 1 <= lives s
}.

(** One alive brick left, at row 5 and column 4, and the ball rising
    into it. *)
Definition last_brick : State :=
  mkState (set_brick (repeat (repeat 0 BRICK_COLS) BRICK_ROWS) 5 4 1)
          start_paddle (Rect.mk 395 240 BALL_SIZE BALL_SIZE)
          (0%R, (-320)%R) START_LIVES 590 false false false.

(** [|velocity|] *)
Definition speed (v : Vel) : R := hypot (fst v) (snd v).

(** A ball coming down on the middle of the paddle. *)
Definition at_paddle : State :=
  mkState reset_bricks start_paddle (Rect.mk 395 555 BALL_SIZE BALL_SIZE)
          (100%R, 300%R) START_LIVES 0 false false false.

(** The angle between the launch direction and the horizontal. *)
Definition elevation (d : Draw) : R :=
  (PI / 2 - Rabs (launch_angle d - PI / 2))%R.

(** The distribution function of the uniform law on [[PI/4, PI/2]],
    halved: the first draws [u <= half_cdf a] and [u >= 1 - half_cdf a]
    are those of elevation at most [a]. *)
Definition half_cdf (a : R) : R := ((a - PI / 4) / (PI / 2))%R.

(** ** The rest of the program *)


(** The colour [main] draws the bricks of row [r] with. *)
Definition brick_color (r : nat) : Z * Z * Z :=
  let hue := 40 + Z.of_nat r * 35 in
  (hue, Z.min 255 (120 + Z.of_nat r * 15), Z.max 0 (180 - Z.of_nat r * 20)).

(** The bricks the drawing loops of [main] paint, in painting order, each
    with its rectangle and colour. *)
Fixpoint draw_cols (g : Grid) (r : nat) (cs : list nat)
  : result (list (Rect.t * (Z * Z * Z))) :=
  match cs with
  | [] => Ok []
  | c :: cs' =>
      b <- get_brick g r c ;;
      rest <- draw_cols g r cs' ;;
      Ok (if negb (b =? 0) then (brick_rect r c, brick_color r) :: rest else rest)
  end.

Fixpoint draw_rows (g : Grid) (rs : list nat)
  : result (list (Rect.t * (Z * Z * Z))) :=
  match rs with
  | [] => Ok []
  | r :: rs' =>
      row <- draw_cols g r (seq 0 BRICK_COLS) ;;
      rest <- draw_rows g rs' ;;
      Ok (row ++ rest)
  end.

Definition draw_bricks (g : Grid) : result (list (Rect.t * (Z * Z * Z))) :=
  draw_rows g (seq 0 BRICK_ROWS).


(** The number of cells of a grid. *)
Definition cells (g : Grid) : Z :=
  fold_right (fun row n => Z.of_nat (length row) + n) 0 g.

(** What holds between two events of a game, beyond [inv]. *)
Record play_inv (s : State) : Prop := mkPlayInv {
  pi_inv : inv s;
  pi_lives_lo : 0 <= lives s;
  pi_lives_hi : lives s <= START_LIVES;
  pi_lost : game_over s = true -> is_win s = false -> lives s = 0;
  pi_won : is_win s = true -> 1 <= lives s;
  pi_top : game_over s = false -> Rect.top (ball s) <= WIN_H;
  pi_paddle : 0 <= Rect.left (paddle s) /\ Rect.right (paddle s) <= WIN_W;
  pi_speed : speed (vel s) = BALL_SPEED
}.

(** A ball creeping to the right at less than one unit per step. *)
Definition creeping : State :=
  mkState reset_bricks start_paddle (Rect.mk 395 400 BALL_SIZE BALL_SIZE)
          (40%R, (-300)%R) START_LIVES 0 false false false.

(** A lost game. *)
Definition lost_game : State :=
  mkState (set_brick reset_bricks 5 4 0) (Rect.mk 0 PADDLE_Y PADDLE_W PADDLE_H)
          (Rect.mk 395 603 BALL_SIZE BALL_SIZE) (0%R, 320%R)
          0 10 false true false.
(** * Properties *)

(** ** Rectangles *)

(** Unfolds the edges and setters of rectangles and the constants, and
    reduces the record projections, leaving integer arithmetic. *)
Ltac rect_simpl :=
  unfold Rect.left, Rect.right, Rect.top, Rect.bottom, Rect.centerx, Rect.width,
    Rect.set_left, Rect.set_right, Rect.set_top, Rect.set_bottom, Rect.set_centerx,
    Rect.set_x, Rect.set_y, set_ball, set_vel, set_paddle,
    WIN_W, WIN_H, BALL_SIZE, PADDLE_W, PADDLE_H, PADDLE_Y,
    BRICK_W, BRICK_H, BRICK_TOP, BRICK_LEFT, BRICK_GAP in *;
  cbn [Rect.x Rect.y Rect.w Rect.h bricks paddle ball vel lives score
       paused game_over is_win fst snd] in *.

Lemma colliderect_pos (a b : Rect.t) :
  0 < Rect.w a -> 0 < Rect.h a -> 0 < Rect.w b -> 0 < Rect.h b ->
  Rect.colliderect a b = true <->
  Rect.left a < Rect.right b /\ Rect.top a < Rect.bottom b /\
  Rect.right a > Rect.left b /\ Rect.bottom a > Rect.top b.
Proof.
  intros Hwa Hha Hwb Hhb.
  unfold Rect.colliderect, Rect.left, Rect.right, Rect.top, Rect.bottom.
  destruct (Rect.w a =? 0) eqn:E1; [apply Z.eqb_eq in E1; lia|].
  destruct (Rect.h a =? 0) eqn:E2; [apply Z.eqb_eq in E2; lia|].
  destruct (Rect.w b =? 0) eqn:E3; [apply Z.eqb_eq in E3; lia|].
  destruct (Rect.h b =? 0) eqn:E4; [apply Z.eqb_eq in E4; lia|].
  cbn [orb].
  rewrite !andb_true_iff, !Z.ltb_lt, !Z.gtb_gt. lia.
Qed.

(** ** The brick response *)

Lemma chosen_side_first_min (ball rb : Rect.t) :
  first_min (chosen_side ball rb) ball rb.
Proof.
  unfold first_min, chosen_side, pick_normal.
  cbn [fst snd].
  destruct (Z.ltb_spec (right_pen ball rb) (left_pen ball rb)) as [H1|H1];
    cbn [fst snd];
    match goal with |- context [top_pen ball rb <? ?m] =>
      destruct (Z.ltb_spec (top_pen ball rb) m) as [H2|H2] end;
    cbn [fst snd];
    match goal with |- context [bot_pen ball rb <? ?m] =>
      destruct (Z.ltb_spec (bot_pen ball rb) m) as [H3|H3] end;
    cbn [fst snd]; cbn;
    (split; intros sd'; destruct sd'; cbn; lia).
Qed.

Lemma first_min_unique (sd1 sd2 : Side) (ball rb : Rect.t) :
  first_min sd1 ball rb -> first_min sd2 ball rb -> sd1 = sd2.
Proof.
  intros [Hm1 Hf1] [Hm2 Hf2].
  destruct (Nat.lt_trichotomy (side_rank sd1) (side_rank sd2)) as [Hlt|[Heq|Hgt]].
  - specialize (Hf2 _ Hlt). specialize (Hm1 sd2). lia.
  - destruct sd1, sd2; cbn in Heq; congruence.
  - specialize (Hf1 _ Hgt). specialize (Hm2 sd1). lia.
Qed.

Lemma reflect_from_brick_response (ball rb : Rect.t) (vel : Vel) :
  let ball' := fst (reflect_from_brick ball rb vel) in
  let vel' := snd (reflect_from_brick ball rb vel) in
  Rect.w ball' = Rect.w ball /\ Rect.h ball' = Rect.h ball /\
  match chosen_side ball rb with
  | SLeft =>
      vel' = ((- fst vel)%R, snd vel) /\
      Rect.left ball' = Rect.right rb + 1 /\ Rect.top ball' = Rect.top ball
  | SRight =>
      vel' = ((- fst vel)%R, snd vel) /\
      Rect.right ball' = Rect.left rb - 1 /\ Rect.top ball' = Rect.top ball
  | STop =>
      vel' = (fst vel, (- snd vel)%R) /\
      Rect.top ball' = Rect.bottom rb + 1 /\ Rect.left ball' = Rect.left ball
  | SBottom =>
      vel' = (fst vel, (- snd vel)%R) /\
      Rect.bottom ball' = Rect.top rb - 1 /\ Rect.left ball' = Rect.left ball
  end.
Proof.
  cbv zeta.
  unfold chosen_side, reflect_from_brick, pick_normal.
  cbn [fst snd].
  destruct (right_pen ball rb <? left_pen ball rb); cbn [fst snd];
    match goal with |- context [top_pen ball rb <? ?m] =>
      destruct (top_pen ball rb <? m) end;
    cbn [fst snd];
    match goal with |- context [bot_pen ball rb <? ?m] =>
      destruct (bot_pen ball rb <? m) end;
    cbn; unfold Rect.right, Rect.left, Rect.bottom, Rect.top; cbn;
    repeat split; lia.
Qed.

(** C1.  [reflect_from_brick] settles on the side of minimum penetration
    among left, right, top and bottom, the first such side in that order
    when several are minimal; it negates the velocity component orthogonal
    to that side, keeps the other, and moves the ball so that it lies one
    unit beyond the brick's edge on that axis, keeping the other coordinate
    and the ball's size. *)
Theorem reflect_from_brick_min_penetration (ball rb : Rect.t) (vel : Vel) :
  let sd := chosen_side ball rb in
  let ball' := fst (reflect_from_brick ball rb vel) in
  let vel' := snd (reflect_from_brick ball rb vel) in
  first_min sd ball rb /\
  (forall sd', first_min sd' ball rb -> sd' = sd) /\
  Rect.w ball' = Rect.w ball /\ Rect.h ball' = Rect.h ball /\
  match sd with
  | SLeft =>
      vel' = ((- fst vel)%R, snd vel) /\
      Rect.left ball' = Rect.right rb + 1 /\ Rect.top ball' = Rect.top ball
  | SRight =>
      vel' = ((- fst vel)%R, snd vel) /\
      Rect.right ball' = Rect.left rb - 1 /\ Rect.top ball' = Rect.top ball
  | STop =>
      vel' = (fst vel, (- snd vel)%R) /\
      Rect.top ball' = Rect.bottom rb + 1 /\ Rect.left ball' = Rect.left ball
  | SBottom =>
      vel' = (fst vel, (- snd vel)%R) /\
      Rect.bottom ball' = Rect.top rb - 1 /\ Rect.left ball' = Rect.left ball
  end.
Proof.
  cbv zeta.
  split; [apply chosen_side_first_min|].
  split; [intros sd' H; apply (first_min_unique _ _ ball rb H), chosen_side_first_min|].
  apply reflect_from_brick_response.
Qed.

(** ** Lists and the grid *)

Section SetNth.
Context {A : Type}.

Lemma set_nth_length (n : nat) (v : A) (l : list A) :
  length (set_nth n v l) = length l.
Proof.
  revert n; induction l as [|a l IH]; intros [|n]; cbn; auto.
Qed.

Lemma nth_error_set_nth_eq (n : nat) (v : A) (l : list A) :
  (n < length l)%nat -> nth_error (set_nth n v l) n = Some v.
Proof.
  revert n; induction l as [|a l IH]; intros [|n] Hn; cbn in *; try lia; auto.
  apply IH; lia.
Qed.

Lemma nth_error_set_nth_neq (n m : nat) (v : A) (l : list A) :
  n <> m -> nth_error (set_nth n v l) m = nth_error l m.
Proof.
  revert n m; induction l as [|a l IH]; intros [|n] [|m] Hnm; cbn; auto.
  congruence.
Qed.

Lemma set_nth_Forall (P : A -> Prop) (n : nat) (v : A) (l : list A) :
  P v -> Forall P l -> Forall P (set_nth n v l).
Proof.
  intros Hv; revert n; induction l as [|a l IH]; intros [|n] Hl; cbn; auto;
    inversion Hl; subst; constructor; auto.
Qed.
End SetNth.

Lemma get_brick_in_grid (g : Grid) (r c : nat) :
  grid_shape g -> in_grid r c -> exists b, get_brick g r c = Ok b.
Proof.
  intros [Hlen Hrows] [Hr Hc]. unfold get_brick.
  destruct (nth_error g r) as [row|] eqn:Er.
  - assert (Hrow : length row = BRICK_COLS).
    { rewrite Forall_forall in Hrows. apply Hrows. eapply nth_error_In; eauto. }
    destruct (nth_error row c) as [b|] eqn:Ec; [eauto|].
    apply nth_error_None in Ec. lia.
  - apply nth_error_None in Er. lia.
Qed.

Lemma set_brick_shape (g : Grid) (r c : nat) (v : Z) :
  grid_shape g -> grid_shape (set_brick g r c v).
Proof.
  intros [Hlen Hrows]. unfold set_brick.
  destruct (nth_error g r) as [row|] eqn:Er; [|split; auto].
  split.
  - now rewrite set_nth_length.
  - apply set_nth_Forall; auto.
    rewrite set_nth_length. rewrite Forall_forall in Hrows.
    apply Hrows. eapply nth_error_In; eauto.
Qed.

Lemma get_set_brick_same (g : Grid) (r c : nat) (b v : Z) :
  get_brick g r c = Ok b -> get_brick (set_brick g r c v) r c = Ok v.
Proof.
  unfold get_brick, set_brick.
  destruct (nth_error g r) as [row|] eqn:Er; [|discriminate].
  destruct (nth_error row c) as [b0|] eqn:Ec; [|discriminate].
  intros _.
  rewrite nth_error_set_nth_eq by (apply nth_error_Some; congruence).
  rewrite nth_error_set_nth_eq by (apply nth_error_Some; congruence).
  reflexivity.
Qed.

Lemma get_set_brick_other (g : Grid) (r c r' c' : nat) (v : Z) :
  (r', c') <> (r, c) ->
  get_brick (set_brick g r c v) r' c' = get_brick g r' c'.
Proof.
  intros Hne. unfold get_brick, set_brick.
  destruct (nth_error g r) as [row|] eqn:Er; [|reflexivity].
  destruct (Nat.eq_dec r r') as [->|Hr].
  - rewrite nth_error_set_nth_eq by (apply nth_error_Some; congruence).
    rewrite Er.
    rewrite nth_error_set_nth_neq by congruence. reflexivity.
  - rewrite nth_error_set_nth_neq by assumption. reflexivity.
Qed.

Lemma dead_in_row_set (row : list Z) (c : nat) (b : Z) :
  nth_error row c = Some b -> b <> 0 ->
  dead_in_row (set_nth c 0 row) = dead_in_row row + 1.
Proof.
  unfold dead_in_row.
  revert c; induction row as [|a row IH]; intros [|c] Hc Hb; cbn in *; try discriminate.
  - injection Hc as ->.
    destruct (Z.eq_dec 0 0); [|congruence].
    destruct (Z.eq_dec b 0); [congruence|]. lia.
  - specialize (IH _ Hc Hb).
    destruct (Z.eq_dec a 0); lia.
Qed.

Lemma dead_count_set_row (g : Grid) (r : nat) (row row' : list Z) :
  nth_error g r = Some row ->
  dead_count (set_nth r row' g) = dead_count g - dead_in_row row + dead_in_row row'.
Proof.
  unfold dead_count.
  revert r; induction g as [|a g IH]; intros [|r] Hr; cbn in *; try discriminate.
  - injection Hr as ->. lia.
  - rewrite (IH _ Hr). lia.
Qed.

Lemma dead_count_set_brick (g : Grid) (r c : nat) (b : Z) :
  get_brick g r c = Ok b -> b <> 0 ->
  dead_count (set_brick g r c 0) = dead_count g + 1.
Proof.
  unfold get_brick, set_brick.
  destruct (nth_error g r) as [row|] eqn:Er; [|discriminate].
  destruct (nth_error row c) as [b0|] eqn:Ec; [|discriminate].
  intros [= ->] Hb.
  rewrite (dead_count_set_row _ _ _ _ Er), (dead_in_row_set _ _ _ Ec Hb). lia.
Qed.

Lemma row_cleared_iff (row : list Z) :
  row_cleared row = true <-> forall c b, nth_error row c = Some b -> b = 0.
Proof.
  unfold row_cleared. rewrite forallb_forall. split.
  - intros H c b Hc. apply Z.eqb_eq, H. eapply nth_error_In; eauto.
  - intros H b Hb. apply In_nth_error in Hb as [c Hc]. apply Z.eqb_eq. eauto.
Qed.

Lemma all_bricks_cleared_iff (g : Grid) :
  all_bricks_cleared g = true <-> all_dead g.
Proof.
  unfold all_bricks_cleared, all_dead, get_brick. rewrite forallb_forall. split.
  - intros H r c b.
    destruct (nth_error g r) as [row|] eqn:Er; [|discriminate].
    destruct (nth_error row c) as [b0|] eqn:Ec; [|discriminate].
    intros [= ->].
    apply nth_error_In in Er. apply H in Er.
    rewrite row_cleared_iff in Er. eauto.
  - intros H row Hrow. apply row_cleared_iff. intros c b Hc.
    apply In_nth_error in Hrow as [r Hr].
    apply (H r c). now rewrite Hr, Hc.
Qed.

Lemma reset_bricks_shape : grid_shape reset_bricks.
Proof.
  split; [apply repeat_length|].
  apply Forall_forall. intros row Hrow.
  apply repeat_spec in Hrow. subst. apply repeat_length.
Qed.

Lemma dead_count_reset : dead_count reset_bricks = 0.
Proof. reflexivity. Qed.

(** ** The brick scan *)

Lemma find_seq_some (f : nat -> bool) (a n c : nat) :
  find f (seq a n) = Some c ->
  (a <= c < a + n)%nat /\ f c = true /\
  forall c', (a <= c' < c)%nat -> f c' = false.
Proof.
  revert a; induction n as [|n IH]; intros a; cbn; [discriminate|].
  destruct (f a) eqn:Ea.
  - intros [= <-]. repeat split; try lia; auto.
  - intros H. apply IH in H as (Hr & Hc & Hfirst).
    repeat split; try lia; auto.
    intros c' Hc'. destruct (Nat.eq_dec c' a) as [->|Hne]; auto.
    apply Hfirst. lia.
Qed.

Lemma find_seq_none (f : nat -> bool) (a n : nat) :
  find f (seq a n) = None ->
  forall c', (a <= c' < a + n)%nat -> f c' = false.
Proof.
  intros H c' Hc'.
  eapply find_none in H; eauto. apply in_seq. lia.
Qed.

Lemma scan_cols_find (r : nat) (cs : list nat) (s : State) :
  (forall c, In c cs -> exists b, get_brick (bricks s) r c = Ok b) ->
  scan_cols r cs s =
  Ok (match find (hittable s r) cs with
      | Some c => (hit_brick r c s, true)
      | None => (s, false)
      end).
Proof.
  induction cs as [|c cs IH]; intros Hget; cbn [scan_cols find]; [reflexivity|].
  destruct (Hget c (or_introl eq_refl)) as [b Hb].
  unfold hittable at 1. rewrite Hb. cbn [bind].
  destruct (b =? 0); cbn [negb andb].
  - apply IH. intros c' Hc'. apply Hget. now right.
  - destruct (Rect.colliderect (ball s) (brick_rect r c)); [reflexivity|].
    apply IH. intros c' Hc'. apply Hget. now right.
Qed.

Lemma scan_rows_done (rs : list nat) (s : State) :
  scan_rows rs (s, true) = Ok (s, true).
Proof. destruct rs; reflexivity. Qed.

Lemma scan_rows_find (rs : list nat) (s : State) :
  grid_shape (bricks s) ->
  (forall r, In r rs -> (r < BRICK_ROWS)%nat) ->
  scan_rows rs (s, false) =
  Ok (match find (row_hittable s) rs with
      | Some r =>
          match find (hittable s r) (seq 0 BRICK_COLS) with
          | Some c => (hit_brick r c s, true)
          | None => (s, false)
          end
      | None => (s, false)
      end).
Proof.
  intros Hg.
  induction rs as [|r rs IH]; intros Hrs; cbn [scan_rows find snd fst]; [reflexivity|].
  rewrite scan_cols_find.
  2:{ intros c Hc. apply get_brick_in_grid; auto.
      split; [apply Hrs; now left|]. apply in_seq in Hc. lia. }
  cbn [bind]. unfold row_hittable at 1.
  destruct (find (hittable s r) (seq 0 BRICK_COLS)) as [c|] eqn:Ec.
  - rewrite Ec. apply scan_rows_done.
  - apply IH. intros r' Hr'. apply Hrs. now right.
Qed.

(** The scan resolves the first hittable cell in row-major order, or
    none when no cell is hittable. *)
Lemma bricks_phase_first_hit (s : State) :
  grid_shape (bricks s) ->
  (exists r c,
      in_grid r c /\ hittable s r c = true /\
      (forall r' c', in_grid r' c' -> before r' c' r c -> hittable s r' c' = false) /\
      bricks_phase s = Ok (hit_brick r c s))
  \/
  ((forall r c, in_grid r c -> hittable s r c = false) /\ bricks_phase s = Ok s).
Proof.
  intros Hg. unfold bricks_phase.
  rewrite scan_rows_find; auto.
  2:{ intros r Hr. apply in_seq in Hr. lia. }
  cbn [bind].
  destruct (find (row_hittable s) (seq 0 BRICK_ROWS)) as [r|] eqn:Er.
  - apply find_seq_some in Er as (Hr & Hrow & Hfirst).
    unfold row_hittable in Hrow.
    destruct (find (hittable s r) (seq 0 BRICK_COLS)) as [c|] eqn:Ec; [|discriminate].
    apply find_seq_some in Ec as (Hc & Hhit & Hcfirst).
    left. exists r, c. repeat split; try lia; auto.
    intros r' c' [Hr' Hc'] [Hlt|[-> Hlt]].
    + specialize (Hfirst r' ltac:(lia)). unfold row_hittable in Hfirst.
      destruct (find (hittable s r') (seq 0 BRICK_COLS)) eqn:E; [discriminate|].
      eapply find_seq_none in E; eauto. lia.
    + apply Hcfirst. lia.
  - right. split; [|reflexivity].
    intros r c [Hr Hc].
    eapply find_seq_none in Er; [|split; [apply Nat.le_0_l|exact Hr]].
    unfold row_hittable in Er.
    destruct (find (hittable s r) (seq 0 BRICK_COLS)) eqn:E; [discriminate|].
    eapply find_seq_none in E; eauto. lia.
Qed.

(** The phases before the scan leave the grid, the score and the pause
    flag alone. *)
Lemma move_phase_frame (s : State) :
  bricks (move_phase s) = bricks s /\ score (move_phase s) = score s /\
  paddle (move_phase s) = paddle s /\ lives (move_phase s) = lives s /\
  vel (move_phase s) = vel s /\
  game_over (move_phase s) = game_over s /\ is_win (move_phase s) = is_win s.
Proof. repeat split. Qed.

Lemma walls_phase_frame (s : State) :
  bricks (walls_phase s) = bricks s /\ score (walls_phase s) = score s /\
  paddle (walls_phase s) = paddle s /\ lives (walls_phase s) = lives s /\
  game_over (walls_phase s) = game_over s /\ is_win (walls_phase s) = is_win s.
Proof.
  unfold walls_phase.
  destruct (Rect.left (ball s) <=? 0); [|destruct (Rect.right (ball s) >=? WIN_W)];
    match goal with |- context [Rect.top ?b <=? 0] => destruct (Rect.top b <=? 0) end;
    repeat split.
Qed.

Lemma bottom_phase_frame (d : Draw) (s : State) :
  bricks (bottom_phase d s) = bricks s /\ score (bottom_phase d s) = score s.
Proof.
  unfold bottom_phase.
  destruct (ball_lost s); [|auto].
  destruct (lives s - 1 <=? 0); split; reflexivity.
Qed.

Lemma paddle_phase_frame (s : State) :
  bricks (paddle_phase s) = bricks s /\ score (paddle_phase s) = score s /\
  paddle (paddle_phase s) = paddle s /\ lives (paddle_phase s) = lives s /\
  game_over (paddle_phase s) = game_over s /\ is_win (paddle_phase s) = is_win s.
Proof.
  unfold paddle_phase. destruct (paddle_hits s); repeat split.
Qed.

Lemma before_scan_frame (d : Draw) (s : State) :
  bricks (before_scan d s) = bricks s /\ score (before_scan d s) = score s.
Proof.
  unfold before_scan.
  destruct (paddle_phase_frame (bottom_phase d (walls_phase (move_phase s)))) as (-> & -> & _).
  destruct (bottom_phase_frame d (walls_phase (move_phase s))) as (-> & ->).
  destruct (walls_phase_frame (move_phase s)) as (-> & -> & _).
  split; reflexivity.
Qed.

Lemma hittable_alive (s : State) (r c : nat) :
  hittable s r c = true ->
  exists b, get_brick (bricks s) r c = Ok b /\ b <> 0 /\
            Rect.colliderect (ball s) (brick_rect r c) = true.
Proof.
  unfold hittable. destruct (get_brick (bricks s) r c) as [b|]; [|discriminate].
  intros H. apply andb_true_iff in H as [Hb Hc].
  exists b. repeat split; auto.
  intros ->. discriminate.
Qed.

(** C2.  A fixed step that runs resolves at most one brick.  The cells
    are examined in row-major order: the first cell that holds an alive
    brick intersecting the ball is set to dead and the score grows by
    exactly 10; every other cell keeps its value, also a cell whose alive
    brick intersects the ball as well.  When no cell qualifies, grid and
    score are unchanged. *)
Theorem fixed_step_one_brick (d : Draw) (s : State) :
  grid_shape (bricks s) -> paused s = false -> game_over s = false ->
  let s1 := before_scan d s in
  exists s', fixed_step d s = Ok s' /\
    ((exists r c,
         in_grid r c /\ hittable s1 r c = true /\
         (forall r' c', in_grid r' c' -> before r' c' r c -> hittable s1 r' c' = false) /\
         get_brick (bricks s') r c = Ok 0 /\
         (forall r' c', (r', c') <> (r, c) ->
                        get_brick (bricks s') r' c' = get_brick (bricks s) r' c') /\
         dead_count (bricks s') = dead_count (bricks s) + 1 /\
         score s' = score s + 10)
     \/
     ((forall r c, in_grid r c -> hittable s1 r c = false) /\
      bricks s' = bricks s /\ score s' = score s)).
Proof.
  intros Hg Hp Ho s1.
  unfold fixed_step. rewrite Hp, Ho. cbn [negb andb].
  fold (before_scan d s). fold s1.
  destruct (before_scan_frame d s) as [Hb Hs]. fold s1 in Hb, Hs.
  destruct (bricks_phase_first_hit s1) as [(r & c & Hin & Hhit & Hfirst & Heq)|[Hnone Heq]].
  { now rewrite Hb. }
  - exists (hit_brick r c s1). split; [exact Heq|]. left.
    exists r, c. repeat split; try apply Hin; auto.
    + destruct (hittable_alive _ _ _ Hhit) as (b & Hget & _).
      unfold hit_brick. destruct (reflect_from_brick _ _ _). cbn [bricks].
      eapply get_set_brick_same; eauto.
    + intros r' c' Hne. unfold hit_brick. destruct (reflect_from_brick _ _ _).
      cbn [bricks]. rewrite Hb. now apply get_set_brick_other.
    + destruct (hittable_alive _ _ _ Hhit) as (b & Hget & Hnz & _).
      unfold hit_brick. destruct (reflect_from_brick _ _ _). cbn [bricks].
      rewrite Hb in *. eapply dead_count_set_brick; eauto.
    + unfold hit_brick. destruct (reflect_from_brick _ _ _). cbn [score]. lia.
  - exists s1. split; [exact Heq|]. right. auto.
Qed.

Lemma fixed_step_one_brick_witness :
  let d := (0%R, 0%R) in
  let s := new_game d in
  exists s', fixed_step d s = Ok s' /\
    ((exists r c,
         in_grid r c /\ hittable (before_scan d s) r c = true /\
         (forall r' c', in_grid r' c' -> before r' c' r c ->
                        hittable (before_scan d s) r' c' = false) /\
         get_brick (bricks s') r c = Ok 0 /\
         (forall r' c', (r', c') <> (r, c) ->
                        get_brick (bricks s') r' c' = get_brick (bricks s) r' c') /\
         dead_count (bricks s') = dead_count (bricks s) + 1 /\
         score s' = score s + 10)
     \/
     ((forall r c, in_grid r c -> hittable (before_scan d s) r c = false) /\
      bricks s' = bricks s /\ score s' = score s)).
Proof.
  apply (fixed_step_one_brick (0%R, 0%R) (new_game (0%R, 0%R))).
  - exact reset_bricks_shape.
  - reflexivity.
  - reflexivity.
Defined.

Example straddling_one_dies :
  hittable straddling 0 0 = true /\ hittable straddling 0 1 = true /\
  exists s', bricks_phase straddling = Ok s' /\
             get_brick (bricks s') 0 0 = Ok 0 /\
             get_brick (bricks s') 0 1 = Ok 1 /\
             dead_count (bricks s') = 1 /\ score s' = 10.
Proof.
  split; [reflexivity|]. split; [reflexivity|].
  exists (hit_brick 0 0 straddling).
  split; [reflexivity|].
  unfold hit_brick.
  destruct (reflect_from_brick (ball straddling) (brick_rect 0 0) (vel straddling)).
  repeat split.
Qed.

(** ** Truncation *)

Lemma Int_part_nonneg (r : R) : (0 <= r)%R -> 0 <= Int_part r.
Proof.
  intros Hr. destruct (base_Int_part r) as [_ H].
  assert (H1 : (IZR (-1) < IZR (Int_part r))%R) by (simpl; lra).
  apply lt_IZR in H1. lia.
Qed.

Lemma py_int_eq (r : R) (z : Z) :
  (0 <= r)%R -> (IZR z <= r < IZR z + 1)%R -> py_int r = z.
Proof.
  intros Hr Hz. unfold py_int.
  destruct (Rle_dec 0 r) as [_|Hn]; [|contradiction].
  symmetry. apply Int_part_spec. lra.
Qed.

Lemma py_int_neg (r : R) : py_int r < 0 -> (r < 0)%R.
Proof.
  unfold py_int. destruct (Rle_dec 0 r) as [Hr|Hr]; [|lra].
  pose proof (Int_part_nonneg r Hr). lia.
Qed.

Lemma py_int_pos (r : R) : 0 < py_int r -> (0 < r)%R.
Proof.
  unfold py_int. destruct (Rle_dec 0 r) as [Hr|Hr].
  - intros H. destruct (base_Int_part r) as [Hle _].
    apply IZR_lt in H. lra.
  - intros H. assert (Hr' : (0 <= - r)%R) by lra.
    pose proof (Int_part_nonneg _ Hr'). lia.
Qed.

Lemma step_neg (v : R) : py_int (v * DT) < 0 -> (v < 0)%R.
Proof. intros H. apply py_int_neg in H. unfold DT in H. lra. Qed.

Lemma step_pos (v : R) : 0 < py_int (v * DT) -> (0 < v)%R.
Proof. intros H. apply py_int_pos in H. unfold DT in H. lra. Qed.

(** ** Shapes are kept *)

Lemma start_ball_shape : ball_shape start_ball.
Proof. split; reflexivity. Qed.

Lemma start_paddle_shape : paddle_shape start_paddle.
Proof. repeat split. Qed.

Lemma start_ball_in_window : in_window start_ball.
Proof. repeat split; vm_compute; congruence. Qed.

Lemma new_game_wf (d : Draw) : wf (new_game d).
Proof.
  constructor; cbn.
  - exact start_ball_shape.
  - exact start_paddle_shape.
  - exact reset_bricks_shape.
  - exact start_ball_in_window.
Qed.

Lemma move_phase_shape (s : State) :
  ball_shape (ball s) -> ball_shape (ball (move_phase s)).
Proof. intros [Hw Hh]. split; cbn; assumption. Qed.

Lemma walls_phase_shape (s : State) :
  ball_shape (ball s) -> ball_shape (ball (walls_phase s)).
Proof.
  intros [Hw Hh]. unfold walls_phase.
  destruct (Rect.left (ball s) <=? 0); [|destruct (Rect.right (ball s) >=? WIN_W)];
    match goal with |- context [Rect.top ?b <=? 0] => destruct (Rect.top b <=? 0) end;
    split; cbn; assumption.
Qed.

Lemma walls_phase_in_window (s : State) :
  ball_shape (ball s) -> in_window (ball (walls_phase s)).
Proof.
  intros [Hw Hh]. unfold walls_phase, in_window.
  destruct (Z.leb_spec (Rect.left (ball s)) 0) as [Hl|Hl];
    [|destruct (Z.geb_spec (Rect.right (ball s)) WIN_W) as [Hr|Hr]];
    match goal with |- context [Rect.top ?b <=? 0] =>
      destruct (Z.leb_spec (Rect.top b) 0) as [Ht|Ht] end;
    rect_simpl; lia.
Qed.

Lemma brick_rect_bounds (r c : nat) :
  in_grid r c ->
  Rect.w (brick_rect r c) = 70 /\ Rect.h (brick_rect r c) = 22 /\
  65 <= Rect.x (brick_rect r c) <= 749 /\
  Rect.x (brick_rect r c) = 65 + 76 * Z.of_nat c /\
  80 <= Rect.y (brick_rect r c) <= 220.
Proof.
  intros [Hr Hc]. unfold BRICK_ROWS, BRICK_COLS in *.
  unfold brick_rect. rect_simpl. lia.
Qed.

(** A ball whose top edge is at or below y = 300 touches no brick. *)
Lemma no_brick_below (b : Rect.t) (r c : nat) :
  ball_shape b -> in_grid r c -> 300 <= Rect.top b ->
  Rect.colliderect b (brick_rect r c) = false.
Proof.
  intros [Hw Hh] Hin Ht.
  destruct (brick_rect_bounds r c Hin) as (Bw & Bh & Bx & _ & By).
  destruct (Rect.colliderect b (brick_rect r c)) eqn:E; [|reflexivity].
  apply colliderect_pos in E; rect_simpl; lia.
Qed.

Lemma reflect_keeps_ball_in_window (b : Rect.t) (r c : nat) (v : Vel) :
  ball_shape b -> in_window b -> in_grid r c ->
  Rect.colliderect b (brick_rect r c) = true ->
  ball_shape (fst (reflect_from_brick b (brick_rect r c) v)) /\
  in_window (fst (reflect_from_brick b (brick_rect r c) v)).
Proof.
  intros [Hw Hh] (Hl & Hr & Ht) Hin Hcol.
  destruct (brick_rect_bounds r c Hin) as (Bw & Bh & Bx & Bxc & By).
  apply colliderect_pos in Hcol; [|rect_simpl; lia..].
  pose proof (reflect_from_brick_response b (brick_rect r c) v) as H.
  cbv zeta in H. destruct H as (Hw' & Hh' & Hside).
  pose proof (chosen_side_first_min b (brick_rect r c)) as [Hmin _].
  pose proof (Hmin STop) as Hmt. pose proof (Hmin SBottom) as Hmb.
  split; [split; congruence|].
  unfold in_window.
  destruct (chosen_side b (brick_rect r c));
    destruct Hside as (_ & Hpos & Hkeep);
    cbn [pen] in Hmt, Hmb;
    unfold left_pen, right_pen, top_pen, bot_pen in *;
    rect_simpl; lia.
Qed.

Lemma hit_brick_wf (s : State) (r c : nat) :
  wf s -> in_grid r c -> hittable s r c = true -> wf (hit_brick r c s).
Proof.
  intros [Hb Hp Hg Hw] Hin Hhit.
  destruct (hittable_alive _ _ _ Hhit) as (b & _ & _ & Hcol).
  destruct (reflect_keeps_ball_in_window _ _ _ (vel s) Hb Hw Hin Hcol) as [Hb' Hw'].
  unfold hit_brick.
  destruct (reflect_from_brick (ball s) (brick_rect r c) (vel s)) as [b' v'].
  constructor; cbn [ball paddle bricks fst] in *; auto.
  now apply set_brick_shape.
Qed.

Lemma bottom_phase_wf (d : Draw) (s : State) : wf s -> wf (bottom_phase d s).
Proof.
  intros [Hb Hp Hg Hw]. unfold bottom_phase.
  destruct (ball_lost s); [|constructor; auto].
  destruct (lives s - 1 <=? 0); constructor; cbn; auto.
  - exact start_ball_shape.
  - exact start_paddle_shape.
  - exact start_ball_in_window.
Qed.

Lemma paddle_phase_wf (s : State) : wf s -> wf (paddle_phase s).
Proof.
  intros [Hb Hp Hg Hw]. unfold paddle_phase.
  destruct (paddle_hits s); [|constructor; auto].
  destruct Hb as [Bw Bh]. destruct Hp as (Py & Pw & Ph).
  destruct Hw as (Hl & Hr & Ht).
  constructor; cbn [ball paddle bricks set_ball set_vel]; auto.
  - split; assumption.
  - repeat split; assumption.
  - unfold in_window in *. rect_simpl. lia.
Qed.

Lemma before_scan_wf (d : Draw) (s : State) : wf s -> wf (before_scan d s).
Proof.
  intros [Hb Hp Hg Hw]. unfold before_scan.
  apply paddle_phase_wf, bottom_phase_wf.
  destruct (walls_phase_frame (move_phase s)) as (Eb & _ & Ep & _).
  constructor.
  - apply walls_phase_shape, move_phase_shape, Hb.
  - rewrite Ep. exact Hp.
  - rewrite Eb. exact Hg.
  - apply walls_phase_in_window, move_phase_shape, Hb.
Qed.

(** A fixed step never raises on a well-shaped state, and keeps the
    shapes. *)
Lemma fixed_step_wf (d : Draw) (s : State) :
  wf s -> exists s', fixed_step d s = Ok s' /\ wf s'.
Proof.
  intros Hwf. unfold fixed_step.
  destruct (negb (paused s) && negb (game_over s)); [|eauto].
  fold (before_scan d s).
  pose proof (before_scan_wf d s Hwf) as Hwf1.
  destruct (bricks_phase_first_hit (before_scan d s) (wf_grid _ Hwf1))
    as [(r & c & Hin & Hhit & _ & Heq)|[_ Heq]]; rewrite Heq.
  - eexists; split; [reflexivity|]. now apply hit_brick_wf.
  - eauto.
Qed.

Lemma mouse_control_wf (mx : Z) (s : State) : wf s -> wf (mouse_control mx s).
Proof.
  intros [Hb Hp Hg Hw]. unfold mouse_control.
  destruct (negb (game_over s)); [|constructor; auto].
  constructor; cbn [ball paddle bricks set_paddle]; auto.
  destruct Hp as (Py & Pw & Ph).
  repeat match goal with |- context [if ?b then _ else _] => destruct b end;
    repeat split; cbn; assumption.
Qed.

Lemma handle_wf (e : Event) (s : State) :
  wf s -> exists s', handle e s = Ok s' /\ wf s'.
Proof.
  intros Hwf. destruct e as [|d|mx|d]; cbn [handle].
  - eexists; split; [reflexivity|]. destruct Hwf; constructor; auto.
  - eexists; split; [reflexivity|]. apply new_game_wf.
  - eexists; split; [reflexivity|]. now apply mouse_control_wf.
  - now apply fixed_step_wf.
Qed.

Lemma reachable_wf (s : State) : reachable s -> wf s.
Proof.
  induction 1 as [d|e s s' _ IH He].
  - apply new_game_wf.
  - destruct (handle_wf e s IH) as (s'' & He' & Hwf).
    congruence.
Qed.

(** ** Walls *)

(** What [walls_phase] does, edge by edge, as the code tests it. *)
Lemma walls_phase_cases (s : State) :
  let w := walls_phase s in
  (if Rect.left (ball s) <=? 0
   then Rect.left (ball w) = 0 /\ fst (vel w) = Rabs (fst (vel s))
   else if Rect.right (ball s) >=? WIN_W
        then Rect.right (ball w) = WIN_W /\ fst (vel w) = (- Rabs (fst (vel s)))%R
        else Rect.x (ball w) = Rect.x (ball s) /\ fst (vel w) = fst (vel s)) /\
  (if Rect.top (ball s) <=? 0
   then Rect.top (ball w) = 0 /\ snd (vel w) = Rabs (snd (vel s))
   else Rect.y (ball w) = Rect.y (ball s) /\ snd (vel w) = snd (vel s)).
Proof.
  cbv zeta. unfold walls_phase.
  destruct (Rect.left (ball s) <=? 0); [|destruct (Rect.right (ball s) >=? WIN_W)];
    rect_simpl; destruct (Rect.y (ball s) <=? 0); rect_simpl;
    repeat split; lia.
Qed.

(** C4.  From a state whose ball lies inside the window, after the
    integration of a fixed step: a box that crosses the left edge is put
    back with its left edge on it and [vx] is negated; a box that crosses
    the right edge is put back with its right edge on it and [vx] is
    negated; a box that crosses the top edge is put back with its top edge
    on it and [vy] is negated; the box then lies inside the window on these
    three sides.  A box that reaches or crosses the bottom edge keeps its
    vertical position and [vy]: the bottom edge does not bounce. *)
Theorem walls_bounce (s : State) :
  ball_shape (ball s) -> in_window (ball s) ->
  let m := move_phase s in
  let w := walls_phase m in
  (Rect.left (ball m) < 0 ->
   Rect.left (ball w) = 0 /\ fst (vel w) = (- fst (vel s))%R) /\
  (Rect.right (ball m) > WIN_W ->
   Rect.right (ball w) = WIN_W /\ fst (vel w) = (- fst (vel s))%R) /\
  (Rect.top (ball m) < 0 ->
   Rect.top (ball w) = 0 /\ snd (vel w) = (- snd (vel s))%R) /\
  in_window (ball w) /\
  (Rect.bottom (ball m) >= WIN_H ->
   Rect.top (ball w) = Rect.top (ball m) /\ snd (vel w) = snd (vel s)).
Proof.
  intros Hshape (Hl & Hr & Ht) m w.
  pose proof (walls_phase_in_window m (move_phase_shape s Hshape)) as Hin.
  fold w in Hin.
  destruct (walls_phase_cases m) as [Hx Hy]. fold w in Hx, Hy.
  destruct Hshape as [Hw Hh].
  pose proof (step_neg (fst (vel s))) as Hxn.
  pose proof (step_pos (fst (vel s))) as Hxp.
  pose proof (step_neg (snd (vel s))) as Hyn.
  assert (Em : vel m = vel s) by reflexivity.
  assert (Elm : Rect.left (ball m) = Rect.left (ball s) + py_int (fst (vel s) * DT))
    by reflexivity.
  assert (Erm : Rect.right (ball m) = Rect.right (ball s) + py_int (fst (vel s) * DT))
    by (unfold m, move_phase; rect_simpl; lia).
  assert (Etm : Rect.top (ball m) = Rect.top (ball s) + py_int (snd (vel s) * DT))
    by reflexivity.
  assert (Ebm : Rect.bottom (ball m) = Rect.top (ball m) + 10)
    by (unfold m, move_phase; rect_simpl; lia).
  assert (Ewm : Rect.right (ball m) = Rect.left (ball m) + 10)
    by (unfold m, move_phase; rect_simpl; lia).
  rewrite Em in Hx, Hy.
  repeat split.
  - destruct (Z.leb_spec (Rect.left (ball m)) 0); [tauto|lia].
  - destruct (Z.leb_spec (Rect.left (ball m)) 0); [|lia].
    destruct Hx as [_ ->]. apply Rabs_left, Hxn. lia.
  - destruct (Z.leb_spec (Rect.left (ball m)) 0); [unfold WIN_W in *; lia|].
    destruct (Z.geb_spec (Rect.right (ball m)) WIN_W); [tauto|lia].
  - destruct (Z.leb_spec (Rect.left (ball m)) 0); [unfold WIN_W in *; lia|].
    destruct (Z.geb_spec (Rect.right (ball m)) WIN_W); [|lia].
    destruct Hx as [_ ->]. rewrite Rabs_right; [reflexivity|].
    apply Rgt_ge, Hxp. lia.
  - destruct (Z.leb_spec (Rect.top (ball m)) 0); [tauto|lia].
  - destruct (Z.leb_spec (Rect.top (ball m)) 0); [|lia].
    destruct Hy as [_ ->]. apply Rabs_left, Hyn. lia.
  - apply Hin.
  - apply Hin.
  - apply Hin.
  - destruct (Z.leb_spec (Rect.top (ball m)) 0); [unfold WIN_H in *; lia|].
    apply Hy.
  - destruct (Z.leb_spec (Rect.top (ball m)) 0); [unfold WIN_H in *; lia|].
    apply Hy.
Qed.

Lemma py_int_eq_neg (r : R) (z : Z) :
  (r < 0)%R -> (IZR z - 1 < r <= IZR z)%R -> py_int r = z.
Proof.
  intros Hr Hz. unfold py_int.
  destruct (Rle_dec 0 r) as [Hn|_]; [lra|].
  rewrite <- (Int_part_spec (- r) (- z)); [lia|].
  rewrite opp_IZR. lra.
Qed.

(** The ball of [near_left_wall] moves four units to the left, from
    x = 2, and so crosses the left edge. *)
Lemma near_left_wall_moves :
  Rect.left (ball (move_phase near_left_wall)) = -2.
Proof.
  assert (E : py_int (-250 * DT) = -4).
  { apply py_int_eq_neg; unfold DT; simpl; lra. }
  unfold move_phase, near_left_wall. rect_simpl. rewrite E. reflexivity.
Qed.

Lemma walls_bounce_witness :
  let s := near_left_wall in
  let w := walls_phase (move_phase s) in
  Rect.left (ball w) = 0 /\ fst (vel w) = (- fst (vel s))%R.
Proof.
  apply (walls_bounce near_left_wall).
  - split; reflexivity.
  - repeat split; vm_compute; congruence.
  - rewrite near_left_wall_moves. reflexivity.
Defined.

(** C6, as stated, fails: the window's bottom edge does not bound the
    ball.  The ball of [falling] moves five units down and then reaches
    three units below the window's bottom edge, and the walls leave it
    there. *)
Lemma walls_leave_ball_below_window :
  ~ (forall s : State, wf s -> paused s = false -> game_over s = false ->
       fully_in_window (ball (walls_phase (move_phase s)))).
Proof.
  intros H.
  assert (Hwf : wf falling).
  { constructor.
    - split; reflexivity.
    - repeat split.
    - apply set_brick_shape, reset_bricks_shape.
    - repeat split; vm_compute; congruence. }
  specialize (H falling Hwf eq_refl eq_refl).
  destruct H as (_ & _ & _ & Hb).
  assert (Ey : py_int (320 * DT) = 5).
  { apply py_int_eq; unfold DT; simpl; lra. }
  destruct (walls_phase_cases (move_phase falling)) as [_ Hy].
  assert (Et : Rect.top (ball (move_phase falling)) = 593).
  { unfold move_phase, falling. rect_simpl. rewrite Ey. reflexivity. }
  rewrite Et in Hy. cbn [Z.leb Z.compare] in Hy. destruct Hy as [Hy _].
  assert (Eh : Rect.h (ball (walls_phase (move_phase falling))) = 10).
  { apply (walls_phase_shape (move_phase falling)). split; reflexivity. }
  unfold Rect.bottom in Hb. rewrite Hy, Eh in Hb.
  change (Rect.y (ball (move_phase falling))) with (Rect.top (ball (move_phase falling))) in Hb.
  rewrite Et in Hb. unfold WIN_H in Hb. lia.
Qed.

(** C6, amended.  After the walls of a fixed step the ball's box lies
    inside the window on the left, on the right and at the top; nothing is
    said of its bottom edge, which is not a wall. *)
Theorem walls_keep_ball_in_window (s : State) :
  ball_shape (ball s) ->
  let b := ball (walls_phase (move_phase s)) in
  0 <= Rect.left b /\ Rect.right b <= WIN_W /\ 0 <= Rect.top b.
Proof.
  intros Hshape. apply (walls_phase_in_window (move_phase s)).
  now apply move_phase_shape.
Qed.

Lemma walls_keep_ball_in_window_witness :
  let b := ball (walls_phase (move_phase falling)) in
  0 <= Rect.left b /\ Rect.right b <= WIN_W /\ 0 <= Rect.top b.
Proof.
  apply (walls_keep_ball_in_window falling).
  split; reflexivity.
Defined.

(** ** Losing a life *)

Lemma paddle_misses (b p : Rect.t) :
  ball_shape b -> paddle_shape p ->
  Rect.bottom b <= PADDLE_Y \/ PADDLE_Y + PADDLE_H <= Rect.top b ->
  Rect.colliderect b p = false.
Proof.
  intros [Hw Hh] (Py & Pw & Ph) Hy.
  destruct (Rect.colliderect b p) eqn:E; [|reflexivity].
  apply colliderect_pos in E; rect_simpl; lia.
Qed.

(** After a life-loss the ball is far below the bricks and clear of the
    paddle, whether it was respawned or left where it fell. *)
Lemma bottom_phase_lost (d : Draw) (s : State) :
  wf s -> ball_lost s = true ->
  300 <= Rect.top (ball (bottom_phase d s)) /\
  paddle_hits (bottom_phase d s) = false.
Proof.
  intros [Hb Hp Hg Hw] Hlost.
  unfold bottom_phase. rewrite Hlost.
  unfold ball_lost in Hlost. apply Z.gtb_gt in Hlost.
  destruct (lives s - 1 <=? 0); unfold paddle_hits; cbn [ball paddle reset_ball_paddle].
  - split; [unfold WIN_H in *; lia|].
    rewrite paddle_misses; auto.
    right. rect_simpl. lia.
  - split; [vm_compute; congruence|]. reflexivity.
Qed.

Lemma no_hit_bricks_phase (s : State) :
  wf s -> 300 <= Rect.top (ball s) -> bricks_phase s = Ok s.
Proof.
  intros Hwf Ht.
  destruct (bricks_phase_first_hit s (wf_grid _ Hwf))
    as [(r & c & Hin & Hhit & _)|[_ Heq]]; [|exact Heq].
  destruct (hittable_alive _ _ _ Hhit) as (b & _ & _ & Hcol).
  rewrite (no_brick_below _ _ _ (wf_ball _ Hwf) Hin Ht) in Hcol. discriminate.
Qed.

(** A fixed step in which the ball is lost ends with the life-loss
    branch: neither the paddle nor a brick is hit after it. *)
Lemma life_loss_step (d : Draw) (s : State) :
  wf s -> paused s = false -> game_over s = false ->
  ball_lost (walls_phase (move_phase s)) = true ->
  fixed_step d s = Ok (bottom_phase d (walls_phase (move_phase s))).
Proof.
  intros Hwf Hp Ho Hlost.
  unfold fixed_step. rewrite Hp, Ho. cbn [negb andb].
  set (w := walls_phase (move_phase s)) in *.
  assert (Hwfw : wf w).
  { destruct Hwf as [Hb Hpd Hg Hw].
    destruct (walls_phase_frame (move_phase s)) as (Eb & _ & Ep & _).
    constructor.
    - apply walls_phase_shape, move_phase_shape, Hb.
    - unfold w. rewrite Ep. exact Hpd.
    - unfold w. rewrite Eb. exact Hg.
    - apply walls_phase_in_window, move_phase_shape, Hb. }
  destruct (bottom_phase_lost d w Hwfw Hlost) as [Ht Hmiss].
  unfold paddle_phase. rewrite Hmiss.
  apply no_hit_bricks_phase; [|exact Ht].
  now apply bottom_phase_wf.
Qed.

(** C3.  A fixed step that runs is the composition of integration, walls,
    bottom check, paddle and bricks in this order; and when the bottom
    check finds the ball lost, the step ends in the state the life-loss
    branch produced: grid and score are those before the step. *)
Theorem fixed_step_phase_order (d : Draw) (s : State) :
  wf s -> paused s = false -> game_over s = false ->
  fixed_step d s =
    bricks_phase (paddle_phase (bottom_phase d (walls_phase (move_phase s)))) /\
  (ball_lost (walls_phase (move_phase s)) = true ->
   exists s', fixed_step d s = Ok s' /\
              s' = bottom_phase d (walls_phase (move_phase s)) /\
              bricks s' = bricks s /\ score s' = score s).
Proof.
  intros Hwf Hp Ho. split.
  - unfold fixed_step. now rewrite Hp, Ho.
  - intros Hlost. eexists. split; [now apply life_loss_step|].
    split; [reflexivity|].
    destruct (bottom_phase_frame d (walls_phase (move_phase s))) as [-> ->].
    destruct (walls_phase_frame (move_phase s)) as (-> & -> & _).
    split; reflexivity.
Qed.

Lemma leaving_wf : wf leaving.
Proof.
  constructor.
  - split; reflexivity.
  - repeat split.
  - apply set_brick_shape, reset_bricks_shape.
  - repeat split; vm_compute; congruence.
Qed.

(** The ball of [leaving] is lost in its next step. *)
Lemma leaving_lost : ball_lost (walls_phase (move_phase leaving)) = true.
Proof.
  assert (Ey : py_int (320 * DT) = 5).
  { apply py_int_eq; unfold DT; simpl; lra. }
  assert (Et : Rect.top (ball (move_phase leaving)) = 603).
  { unfold move_phase, leaving. rect_simpl. rewrite Ey. reflexivity. }
  destruct (walls_phase_cases (move_phase leaving)) as [_ Hy].
  rewrite Et in Hy. cbn [Z.leb Z.compare] in Hy. destruct Hy as [Hy _].
  unfold ball_lost, Rect.top. rewrite Hy.
  change (Rect.y (ball (move_phase leaving))) with (Rect.top (ball (move_phase leaving))).
  rewrite Et. reflexivity.
Qed.

Lemma fixed_step_phase_order_witness :
  let d := (0%R, 0%R) in
  let s := leaving in
  exists s', fixed_step d s = Ok s' /\
             s' = bottom_phase d (walls_phase (move_phase s)) /\
             bricks s' = bricks s /\ score s' = score s.
Proof.
  apply (fixed_step_phase_order (0%R, 0%R) leaving).
  - exact leaving_wf.
  - reflexivity.
  - reflexivity.
  - exact leaving_lost.
Defined.

(** C9.  In a fixed step in which the ball's top edge is below the
    window's bottom edge after the walls, [lives] drops by exactly 1 and
    grid and score are unchanged; when no life is left the game is Lost,
    otherwise the game goes on with paddle and ball at their round-start
    places and a velocity launched from the two fresh draws. *)
Theorem life_loss (d : Draw) (s : State) :
  wf s -> paused s = false -> game_over s = false -> 1 <= lives s ->
  ball_lost (walls_phase (move_phase s)) = true ->
  exists s', fixed_step d s = Ok s' /\
    lives s' = lives s - 1 /\
    bricks s' = bricks s /\ score s' = score s /\
    (lives s' = 0 -> phase_of s' = Lost) /\
    (lives s' <> 0 ->
     game_over s' = false /\ paused s' = false /\
     paddle s' = start_paddle /\ ball s' = start_ball /\ vel s' = launch_vel d).
Proof.
  intros Hwf Hp Ho Hl Hlost.
  eexists. split; [now apply life_loss_step|].
  destruct (walls_phase_frame (move_phase s)) as (Eb & Es & _ & El & Eo & _).
  assert (Epz : paused (walls_phase (move_phase s)) = false).
  { unfold walls_phase.
    destruct (Rect.left (ball (move_phase s)) <=? 0);
      [|destruct (Rect.right (ball (move_phase s)) >=? WIN_W)];
      match goal with |- context [Rect.top ?b <=? 0] => destruct (Rect.top b <=? 0) end;
      exact Hp. }
  change (lives (move_phase s)) with (lives s) in El.
  change (game_over (move_phase s)) with (game_over s) in Eo.
  change (bricks (move_phase s)) with (bricks s) in Eb.
  change (score (move_phase s)) with (score s) in Es.
  unfold bottom_phase. rewrite Hlost, El.
  destruct (Z.leb_spec (lives s - 1) 0) as [Hz|Hz];
    unfold phase_of;
    cbn [lives bricks score game_over paused paddle ball vel reset_ball_paddle
         is_win].
  - repeat split; auto; lia.
  - rewrite Eo, Ho. repeat split; auto; lia.
Qed.

Lemma life_loss_witness :
  let d := (0%R, 0%R) in
  let s := leaving in
  exists s', fixed_step d s = Ok s' /\
    lives s' = lives s - 1 /\
    bricks s' = bricks s /\ score s' = score s /\
    (lives s' = 0 -> phase_of s' = Lost) /\
    (lives s' <> 0 ->
     game_over s' = false /\ paused s' = false /\
     paddle s' = start_paddle /\ ball s' = start_ball /\ vel s' = launch_vel d).
Proof.
  apply (life_loss (0%R, 0%R) leaving).
  - exact leaving_wf.
  - reflexivity.
  - reflexivity.
  - vm_compute; congruence.
  - exact leaving_lost.
Defined.

(** ** What a step changes *)

Lemma bricks_phase_effect (s : State) :
  grid_shape (bricks s) ->
  exists s', bricks_phase s = Ok s' /\
    lives s' = lives s /\ paused s' = paused s /\
    ((bricks s' = bricks s /\ score s' = score s /\
      game_over s' = game_over s /\ is_win s' = is_win s)
     \/
     (dead_count (bricks s') = dead_count (bricks s) + 1 /\
      score s' = score s + 10 /\
      game_over s' = all_bricks_cleared (bricks s') || game_over s /\
      is_win s' = all_bricks_cleared (bricks s') || is_win s)).
Proof.
  intros Hg.
  destruct (bricks_phase_first_hit s Hg)
    as [(r & c & Hin & Hhit & _ & Heq)|[_ Heq]]; rewrite Heq.
  - eexists; split; [reflexivity|].
    destruct (hittable_alive _ _ _ Hhit) as (b & Hget & Hnz & _).
    pose proof (dead_count_set_brick _ _ _ _ Hget Hnz) as Hdead.
    unfold hit_brick.
    destruct (reflect_from_brick (ball s) (brick_rect r c) (vel s)) as [b' v'].
    cbn [lives paused bricks score game_over is_win].
    split; [reflexivity|]. split; [reflexivity|]. right.
    destruct (all_bricks_cleared (set_brick (bricks s) r c 0));
      cbn [orb]; repeat split; auto.
  - eexists; split; [reflexivity|]. repeat split; auto.
Qed.

Lemma before_scan_flags (d : Draw) (s : State) :
  is_win s = false -> game_over s = false -> 1 <= lives s ->
  is_win (before_scan d s) = false /\
  paused (before_scan d s) = paused s /\
  (game_over (before_scan d s) = false -> 1 <= lives (before_scan d s)).
Proof.
  intros Hw Ho Hl. unfold before_scan.
  destruct (paddle_phase_frame (bottom_phase d (walls_phase (move_phase s))))
    as (_ & _ & _ & -> & -> & ->).
  assert (Epp : forall t, paused (paddle_phase t) = paused t).
  { intros t. unfold paddle_phase. destruct (paddle_hits t); reflexivity. }
  rewrite Epp.
  destruct (walls_phase_frame (move_phase s)) as (_ & _ & _ & El & Eo & Ew).
  change (lives (move_phase s)) with (lives s) in El.
  change (game_over (move_phase s)) with (game_over s) in Eo.
  change (is_win (move_phase s)) with (is_win s) in Ew.
  assert (Epz : paused (walls_phase (move_phase s)) = paused s).
  { unfold walls_phase.
    destruct (Rect.left (ball (move_phase s)) <=? 0);
      [|destruct (Rect.right (ball (move_phase s)) >=? WIN_W)];
      match goal with |- context [Rect.top ?b <=? 0] => destruct (Rect.top b <=? 0) end;
      reflexivity. }
  unfold bottom_phase.
  destruct (ball_lost (walls_phase (move_phase s))).
  - rewrite El.
    destruct (Z.leb_spec (lives s - 1) 0);
      cbn [is_win paused game_over lives reset_ball_paddle];
      rewrite ?Ew, ?Epz; repeat split; auto; try discriminate; lia.
  - rewrite Ew, Epz, Eo, El. auto.
Qed.

Lemma fixed_step_inv (d : Draw) (s : State) :
  inv s ->
  exists s', fixed_step d s = Ok s' /\ inv s' /\
    ((bricks s' = bricks s /\ score s' = score s)
     \/
     (dead_count (bricks s') = dead_count (bricks s) + 1 /\
      score s' = score s + 10)).
Proof.
  intros Hinv.
  destruct (fixed_step_wf d s (inv_wf _ Hinv)) as (s' & Hstep & Hwf').
  exists s'. split; [exact Hstep|].
  revert Hstep. unfold fixed_step.
  destruct (paused s) eqn:Hp; cbn [negb andb].
  { intros [= <-]. auto. }
  destruct (game_over s) eqn:Ho; cbn [negb andb].
  { intros [= <-]. auto. }
  fold (before_scan d s).
  assert (Hw : is_win s = false).
  { destruct (is_win s) eqn:E; [|reflexivity].
    rewrite (inv_over _ Hinv E) in Ho. discriminate. }
  destruct (before_scan_flags d s Hw Ho (inv_lives _ Hinv Ho)) as (Hw1 & _ & Hl1).
  destruct (before_scan_frame d s) as [Hb1 Hs1].
  pose proof (before_scan_wf d s (inv_wf _ Hinv)) as Hwf1.
  destruct (bricks_phase_effect (before_scan d s) (wf_grid _ Hwf1))
    as (s2 & Heq & Hl2 & _ & Hcase).
  rewrite Heq. intros [= <-].
  pose proof (inv_score _ Hinv) as Hsc. pose proof (inv_win _ Hinv) as Hwin.
  destruct Hcase as [(Eb & Es & Eo & Ew)|(Ed & Es & Eo & Ew)].
  - split; [|left; split; congruence].
    constructor; auto.
    + rewrite Es, Eb, Hs1, Hb1. exact Hsc.
    + rewrite Ew, Eb, Hw1, Hb1, <- Hwin. now symmetry.
    + rewrite Ew, Hw1. discriminate.
    + rewrite Eo, Hl2. exact Hl1.
  - split; [|right; split; [rewrite Ed, Hb1|rewrite Es, Hs1]; reflexivity].
    constructor; auto.
    + rewrite Es, Ed, Hs1, Hb1, Hsc. lia.
    + rewrite Ew, Hw1. apply orb_false_r.
    + rewrite Ew, Eo, Hw1, orb_false_r. intros ->. reflexivity.
    + rewrite Eo, Hl2. intros H. apply orb_false_iff in H as [_ H]. auto.
Qed.

Lemma new_game_inv (d : Draw) : inv (new_game d).
Proof.
  constructor; cbn.
  - apply new_game_wf.
  - reflexivity.
  - reflexivity.
  - discriminate.
  - intros _. unfold START_LIVES. lia.
Qed.

(** Every event keeps [inv]; it leaves grid and score alone, or kills
    one brick for 10 points, or starts a new game. *)
Lemma handle_inv (e : Event) (s : State) :
  inv s ->
  exists s', handle e s = Ok s' /\ inv s' /\
    ((bricks s' = bricks s /\ score s' = score s)
     \/
     (dead_count (bricks s') = dead_count (bricks s) + 1 /\
      score s' = score s + 10)
     \/
     (exists d, e = KeyR d /\ bricks s' = reset_bricks /\ score s' = 0)).
Proof.
  intros Hinv. destruct e as [|d|mx|d]; cbn [handle].
  - eexists; split; [reflexivity|]. split; [|left; split; reflexivity].
    destruct Hinv as [[Hb Hp Hg Hw] Hs Hwin Ho Hl]. constructor; auto.
    constructor; auto.
  - eexists; split; [reflexivity|]. split; [apply new_game_inv|].
    right; right. exists d. repeat split.
  - eexists; split; [reflexivity|]. split.
    + destruct Hinv as [Hwf Hs Hwin Ho Hl].
      pose proof (mouse_control_wf mx s Hwf) as Hwf'.
      unfold mouse_control in *.
      destruct (negb (game_over s)); constructor; auto.
    + left. unfold mouse_control. destruct (negb (game_over s)); split; reflexivity.
  - destruct (fixed_step_inv d s Hinv) as (s' & Hstep & Hinv' & Hcase).
    exists s'. split; [exact Hstep|]. split; [exact Hinv'|]. tauto.
Qed.

Lemma reachable_inv (s : State) : reachable s -> inv s.
Proof.
  induction 1 as [d|e s s' _ IH He].
  - apply new_game_inv.
  - destruct (handle_inv e s IH) as (s'' & He' & Hinv & _).
    congruence.
Qed.

Lemma won_iff (s : State) :
  inv s -> (phase_of s = Won <-> all_dead (bricks s)).
Proof.
  intros Hinv. rewrite <- all_bricks_cleared_iff, <- (inv_win _ Hinv).
  pose proof (inv_over _ Hinv) as Ho.
  unfold phase_of.
  destruct (game_over s), (is_win s), (paused s); split; intros H;
    try reflexivity; try discriminate; try (now specialize (Ho eq_refl)).
Qed.

(** C8.  Between any two events of a game the state is Won exactly when
    every cell of the grid is dead; so it is after every further event:
    the step that kills the last alive brick ends in Won, and no event
    ends in Won while a brick is alive. *)
Theorem won_iff_all_dead (s : State) :
  reachable s ->
  (phase_of s = Won <-> all_dead (bricks s)) /\
  (forall e s', handle e s = Ok s' ->
                (phase_of s' = Won <-> all_dead (bricks s'))).
Proof.
  intros Hr. pose proof (reachable_inv s Hr) as Hinv.
  split; [now apply won_iff|].
  intros e s' He.
  destruct (handle_inv e s Hinv) as (s'' & He' & Hinv' & _).
  assert (s'' = s') by congruence. subst. now apply won_iff.
Qed.

Lemma won_iff_all_dead_witness :
  let s := new_game (0%R, 0%R) in
  (phase_of s = Won <-> all_dead (bricks s)) /\
  (forall e s', handle e s = Ok s' ->
                (phase_of s' = Won <-> all_dead (bricks s'))).
Proof.
  apply (won_iff_all_dead (new_game (0%R, 0%R))).
  apply reach_start.
Defined.

(** With one brick left, the step of the scan that kills it ends in Won. *)
Example last_brick_wins :
  phase_of last_brick = Playing /\
  exists s', bricks_phase last_brick = Ok s' /\
             phase_of s' = Won /\ score s' = 600 /\
             all_bricks_cleared (bricks s') = true.
Proof.
  split; [reflexivity|].
  exists (hit_brick 5 4 last_brick).
  split; [reflexivity|].
  unfold hit_brick.
  destruct (reflect_from_brick (ball last_brick) (brick_rect 5 4) (vel last_brick)).
  repeat split.
Qed.

(** C10.  Between any two events of a game the score is ten times the
    number of dead cells.  An event leaves grid and score as they are, or
    adds one dead cell and 10 points, or is a reset that restores the
    all-alive grid with score 0. *)
Theorem score_counts_dead_bricks (s : State) :
  reachable s ->
  score s = 10 * dead_count (bricks s) /\
  (forall e s', handle e s = Ok s' ->
     (bricks s' = bricks s /\ score s' = score s)
     \/
     (dead_count (bricks s') = dead_count (bricks s) + 1 /\
      score s' = score s + 10)
     \/
     (exists d, e = KeyR d /\ bricks s' = reset_bricks /\ score s' = 0 /\
                dead_count (bricks s') = 0)).
Proof.
  intros Hr. pose proof (reachable_inv s Hr) as Hinv.
  split; [apply (inv_score _ Hinv)|].
  intros e s' He.
  destruct (handle_inv e s Hinv) as (s'' & He' & _ & Hcase).
  assert (s'' = s') by congruence. subst.
  destruct Hcase as [H|[H|(d & -> & Hb & Hs)]]; auto.
  right; right. exists d. rewrite Hb. repeat split; auto.
Qed.

Lemma score_counts_dead_bricks_witness :
  let s := new_game (0%R, 0%R) in
  score s = 10 * dead_count (bricks s) /\
  (forall e s', handle e s = Ok s' ->
     (bricks s' = bricks s /\ score s' = score s)
     \/
     (dead_count (bricks s') = dead_count (bricks s) + 1 /\
      score s' = score s + 10)
     \/
     (exists d, e = KeyR d /\ bricks s' = reset_bricks /\ score s' = 0 /\
                dead_count (bricks s') = 0)).
Proof.
  apply (score_counts_dead_bricks (new_game (0%R, 0%R))).
  apply reach_start.
Defined.

(** ** The paddle *)

Lemma Rabs_sq (x : R) : (Rabs x * Rabs x = x * x)%R.
Proof. unfold Rabs. destruct (Rcase_abs x); lra. Qed.

Lemma hypot_nonneg (a b : R) : (0 <= hypot a b)%R.
Proof. apply sqrt_pos. Qed.

Lemma hypot_pos (a b : R) : (0 < b)%R -> (0 < hypot a b)%R.
Proof. intros Hb. unfold hypot. apply sqrt_lt_R0. nra. Qed.

(** A vector of length [s] at angle [a] from the vertical has length [s]. *)
Lemma hypot_polar (s a : R) :
  (0 <= s)%R -> hypot (s * sin a) (- Rabs (s * cos a)) = s.
Proof.
  intros Hs. unfold hypot.
  replace (s * sin a * (s * sin a) + - Rabs (s * cos a) * - Rabs (s * cos a))%R
    with (s * s)%R; [now apply sqrt_square|].
  pose proof (sin2_cos2 a) as H. unfold Rsqr in H.
  pose proof (Rabs_sq (s * cos a)) as Ha.
  nra.
Qed.

(** Where the ball can touch the paddle, the bounce angle stays within a
    right angle of the vertical. *)
Lemma paddle_angle_range (s : State) :
  ball_shape (ball s) -> paddle_shape (paddle s) ->
  Rect.colliderect (ball s) (paddle s) = true ->
  (- (PI / 2) < paddle_angle s < PI / 2)%R.
Proof.
  intros [Bw Bh] (Py & Pw & Ph) Hcol.
  apply colliderect_pos in Hcol; [|rect_simpl; lia..].
  unfold paddle_angle, paddle_hit_pos.
  assert (Hn : -4 <= Rect.centerx (ball s) - Rect.left (paddle s) <= 104).
  { unfold Rect.centerx. rewrite Bw. unfold BALL_SIZE.
    change (Z.quot 10 2) with 5. rect_simpl. lia. }
  destruct Hn as [Hlo Hhi]. apply IZR_le in Hlo, Hhi.
  unfold Rect.width. rewrite Pw. unfold PADDLE_W.
  set (n := IZR (Rect.centerx (ball s) - Rect.left (paddle s))) in *.
  pose proof PI_RGT_0 as Hpi.
  assert (Hh : (-54 / 100 <= n / 100 - 1 / 2 <= 54 / 100)%R) by lra.
  set (h := (n / 100 - 1 / 2)%R) in *.
  replace (PI / (12 / 10))%R with (PI * (10 / 12))%R by (field; lra).
  split; nra.
Qed.

(** C7.  The paddle changes ball and velocity only when the ball's box
    intersects the paddle's box and [vy > 0].  When it does, the speed
    after the bounce is the speed before it, the new [vy] is negative, and
    the ball's bottom edge is one unit above the paddle's top edge. *)
Theorem paddle_bounce (s : State) :
  ball_shape (ball s) -> paddle_shape (paddle s) ->
  (paddle_phase s <> s ->
   Rect.colliderect (ball s) (paddle s) = true /\ (snd (vel s) > 0)%R) /\
  (Rect.colliderect (ball s) (paddle s) = true -> (snd (vel s) > 0)%R ->
   let s' := paddle_phase s in
   speed (vel s') = speed (vel s) /\
   (snd (vel s') < 0)%R /\
   Rect.bottom (ball s') = Rect.top (paddle s) - 1).
Proof.
  intros Hb Hp. split.
  - intros Hne. unfold paddle_phase, paddle_hits in Hne.
    destruct (Rect.colliderect (ball s) (paddle s)); cbn [andb] in Hne;
      [|congruence].
    destruct (Rlt_dec 0 (snd (vel s))); [split; [reflexivity|lra]|congruence].
  - intros Hcol Hvy s'.
    assert (Es : s' = set_ball (Rect.set_bottom (Rect.top (paddle s) - 1) (ball s))
                   (set_vel ((speed (vel s) * sin (paddle_angle s))%R,
                             (- Rabs (speed (vel s) * cos (paddle_angle s)))%R) s)).
    { unfold s', paddle_phase, paddle_hits. rewrite Hcol.
      destruct (Rlt_dec 0 (snd (vel s))); [reflexivity|lra]. }
    rewrite Es. cbn [vel ball set_ball set_vel snd fst].
    split; [|split].
    + unfold speed at 1. cbn [fst snd].
      apply hypot_polar, hypot_nonneg.
    + pose proof (hypot_pos (fst (vel s)) (snd (vel s)) Hvy) as Hsp.
      destruct (paddle_angle_range s Hb Hp Hcol) as [Hlo Hhi].
      pose proof (cos_gt_0 _ Hlo Hhi) as Hc.
      fold (speed (vel s)) in Hsp.
      rewrite Rabs_right; nra.
    + rect_simpl. lia.
Qed.

Lemma paddle_bounce_witness :
  let s := at_paddle in
  let s' := paddle_phase s in
  speed (vel s') = speed (vel s) /\
  (snd (vel s') < 0)%R /\
  Rect.bottom (ball s') = Rect.top (paddle s) - 1.
Proof.
  apply (paddle_bounce at_paddle).
  - split; reflexivity.
  - repeat split.
  - reflexivity.
  - cbn. lra.
Defined.

(** ** The launch *)

Lemma launch_angle_range (d : Draw) :
  valid_draw d -> (PI / 4 <= launch_angle d < 3 * (PI / 4))%R.
Proof.
  intros [[Hlo Hhi] _]. unfold launch_angle.
  pose proof PI_RGT_0. split; nra.
Qed.

Lemma dir_sign_sq (d : Draw) : (dir_sign d * dir_sign d = 1)%R.
Proof. unfold dir_sign. destruct (Rlt_dec (snd d) (1 / 2)); lra. Qed.

Lemma Rabs_dir_sign (d : Draw) : Rabs (dir_sign d) = 1%R.
Proof.
  unfold dir_sign. destruct (Rlt_dec (snd d) (1 / 2)).
  - rewrite Rabs_left; lra.
  - rewrite Rabs_right; lra.
Qed.

Lemma elevation_eq (d : Draw) :
  elevation d = (PI / 2 - PI / 2 * Rabs (fst d - 1 / 2))%R.
Proof.
  unfold elevation, launch_angle.
  replace (PI / 4 + fst d * (PI / 2) - PI / 2)%R
    with (PI / 2 * (fst d - 1 / 2))%R by field.
  rewrite Rabs_mult, (Rabs_right (PI / 2)); [reflexivity|].
  pose proof PI_RGT_0. lra.
Qed.

Lemma cos_PI_sub (x : R) : cos (PI - x) = (- cos x)%R.
Proof. rewrite cos_minus, cos_PI, sin_PI. ring. Qed.

Lemma elevation_components (d : Draw) :
  valid_draw d ->
  Rabs (cos (launch_angle d)) = cos (elevation d) /\
  sin (launch_angle d) = sin (elevation d) /\
  (0 < sin (launch_angle d))%R.
Proof.
  intros Hd. destruct (launch_angle_range d Hd) as [Hlo Hhi].
  pose proof PI_RGT_0 as Hpi.
  assert (Hsin : (0 < sin (launch_angle d))%R) by (apply sin_gt_0; lra).
  unfold elevation.
  destruct (Rle_dec (launch_angle d) (PI / 2)) as [Hle|Hgt].
  - rewrite (Rabs_left1 (launch_angle d - PI / 2)) by lra.
    replace (PI / 2 - - (launch_angle d - PI / 2))%R with (launch_angle d) by ring.
    repeat split; auto.
    apply Rabs_right, Rle_ge, cos_ge_0; lra.
  - rewrite (Rabs_right (launch_angle d - PI / 2)) by lra.
    replace (PI / 2 - (launch_angle d - PI / 2))%R with (PI - launch_angle d)%R by field.
    rewrite cos_PI_sub, sin_PI_x.
    repeat split; auto.
    apply Rabs_left, cos_lt_0; lra.
Qed.

(** C5.  With both draws in [[0, 1)]: the launch direction makes with the
    horizontal an angle between 45 and 90 degrees, which is at most [a]
    exactly for the first draws in two end intervals of the unit interval
    of length [half_cdf a] each, the distribution function of the uniform
    law; the sign factor is -1 on the lower half of the second draw's
    range and +1 on the upper half; [vy] is negative; the speed is
    [BALL_SPEED].  The new game and the respawn use this launch. *)
Theorem launch_is_upward_at_ball_speed (d : Draw) :
  valid_draw d ->
  let v := launch_vel d in
  (PI / 4 <= elevation d <= PI / 2)%R /\
  Rabs (fst v) = (BALL_SPEED * cos (elevation d))%R /\
  Rabs (snd v) = (BALL_SPEED * sin (elevation d))%R /\
  (forall a : R,
     (elevation d <= a)%R <->
     (fst d <= half_cdf a)%R \/ (1 - half_cdf a <= fst d)%R) /\
  (dir_sign d = (-1)%R <-> (snd d < 1 / 2)%R) /\
  (dir_sign d = 1%R <-> (1 / 2 <= snd d)%R) /\
  fst v = (cos (launch_angle d) * BALL_SPEED * dir_sign d)%R /\
  (snd v < 0)%R /\
  speed v = BALL_SPEED /\
  vel (new_game d) = v /\
  (forall s, ball_lost s = true -> 0 < lives s - 1 ->
             vel (bottom_phase d s) = v).
Proof.
  intros Hd v.
  destruct (elevation_components d Hd) as (Hcos & Hsin & Hpos).
  pose proof PI_RGT_0 as Hpi.
  pose proof Hd as [[Hlo Hhi] _].
  assert (Hspeed : (0 < BALL_SPEED)%R) by (unfold BALL_SPEED; lra).
  split; [|split; [|split; [|split; [|split; [|split; [|split; [|split; [|split; [|split]]]]]]]]].
  - rewrite elevation_eq.
    assert (0 <= Rabs (fst d - 1 / 2) <= 1 / 2)%R.
    { split; [apply Rabs_pos|]. unfold Rabs. destruct (Rcase_abs _); lra. }
    split; nra.
  - unfold v, launch_vel. cbn [fst].
    rewrite !Rabs_mult, Rabs_dir_sign, Hcos, (Rabs_right BALL_SPEED) by lra.
    ring.
  - unfold v, launch_vel. cbn [snd].
    rewrite Rabs_Ropp, Rabs_Rabsolu, Rabs_mult, (Rabs_right BALL_SPEED) by lra.
    rewrite (Rabs_right (sin (launch_angle d))) by lra.
    rewrite Hsin. ring.
  - intros a. rewrite elevation_eq.
    assert (Ha : a = (PI / 4 + half_cdf a * (PI / 2))%R).
    { unfold half_cdf. field. lra. }
    set (c := half_cdf a) in *.
    unfold Rabs. destruct (Rcase_abs (fst d - 1 / 2)); split.
    + intros H. left. nra.
    + intros [H|H]; nra.
    + intros H. right. nra.
    + intros [H|H]; nra.
  - unfold dir_sign. destruct (Rlt_dec (snd d) (1 / 2)); split; intros; lra.
  - unfold dir_sign. destruct (Rlt_dec (snd d) (1 / 2)); split; intros; lra.
  - reflexivity.
  - unfold v, launch_vel. cbn [snd].
    rewrite Rabs_right; nra.
  - unfold speed, hypot, v, launch_vel. cbn [fst snd].
    replace (cos (launch_angle d) * BALL_SPEED * dir_sign d *
             (cos (launch_angle d) * BALL_SPEED * dir_sign d) +
             - Rabs (sin (launch_angle d) * BALL_SPEED) *
             - Rabs (sin (launch_angle d) * BALL_SPEED))%R
      with (BALL_SPEED * BALL_SPEED)%R; [apply sqrt_square; lra|].
    pose proof (sin2_cos2 (launch_angle d)) as H. unfold Rsqr in H.
    pose proof (Rabs_sq (sin (launch_angle d) * BALL_SPEED)) as Ha.
    pose proof (dir_sign_sq d) as Hs.
    set (cs := cos (launch_angle d)) in *. set (sn := sin (launch_angle d)) in *.
    set (g := dir_sign d) in *.
    replace (cs * BALL_SPEED * g * (cs * BALL_SPEED * g))%R
      with (cs * cs * BALL_SPEED * BALL_SPEED * (g * g))%R by ring.
    rewrite Hs. nra.
  - reflexivity.
  - intros s Hlost Hl. unfold bottom_phase. rewrite Hlost.
    destruct (Z.leb_spec (lives s - 1) 0); [lia|reflexivity].
Qed.

Lemma launch_is_upward_at_ball_speed_witness :
  let d := ((1 / 4)%R, (3 / 4)%R) in
  let v := launch_vel d in
  (PI / 4 <= elevation d <= PI / 2)%R /\
  Rabs (fst v) = (BALL_SPEED * cos (elevation d))%R /\
  Rabs (snd v) = (BALL_SPEED * sin (elevation d))%R /\
  (forall a : R,
     (elevation d <= a)%R <->
     (fst d <= half_cdf a)%R \/ (1 - half_cdf a <= fst d)%R) /\
  (dir_sign d = (-1)%R <-> (snd d < 1 / 2)%R) /\
  (dir_sign d = 1%R <-> (1 / 2 <= snd d)%R) /\
  fst v = (cos (launch_angle d) * BALL_SPEED * dir_sign d)%R /\
  (snd v < 0)%R /\
  speed v = BALL_SPEED /\
  vel (new_game d) = v /\
  (forall s, ball_lost s = true -> 0 < lives s - 1 ->
             vel (bottom_phase d s) = v).
Proof.
  apply (launch_is_upward_at_ball_speed ((1 / 4)%R, (3 / 4)%R)).
  unfold valid_draw. cbn [fst snd]. lra.
Defined.

(** * Further properties of the program *)

(** ** Geometry *)

(** X1.  The rectangles of two cells of the grid intersect only when the
    cells are the same: bricks never overlap, and a brick's rectangle
    tells its cell. *)
Theorem brick_rects_disjoint (r c r' c' : nat) :
  in_grid r c -> in_grid r' c' ->
  (Rect.colliderect (brick_rect r c) (brick_rect r' c') = true <->
   (r, c) = (r', c')).
Proof.
  intros Hin Hin'.
  destruct (brick_rect_bounds r c Hin) as (Bw & Bh & _ & _ & _).
  destruct (brick_rect_bounds r' c' Hin') as (Bw' & Bh' & _ & _ & _).
  rewrite colliderect_pos by lia.
  unfold brick_rect. rect_simpl. split.
  - intros (H1 & H2 & H3 & H4).
    assert (c = c') by lia. assert (r = r') by lia. congruence.
  - intros [= -> ->]. lia.
Qed.

Lemma brick_rects_disjoint_witness :
  Rect.colliderect (brick_rect 0 0) (brick_rect 0 1) = true <-> (0, 0)%nat = (0, 1)%nat.
Proof.
  apply (brick_rects_disjoint 0 0 0 1); split; vm_compute; lia.
Defined.



(** X3.  After [reflect_from_brick] the ball no longer intersects the
    brick it was reflected from, whatever side was chosen. *)
Theorem reflect_from_brick_separates (ball rb : Rect.t) (vel : Vel) :
  0 < Rect.w ball -> 0 < Rect.h ball -> 0 < Rect.w rb -> 0 < Rect.h rb ->
  Rect.colliderect (fst (reflect_from_brick ball rb vel)) rb = false.
Proof.
  intros Hw Hh Hrw Hrh.
  pose proof (reflect_from_brick_response ball rb vel) as H. cbv zeta in H.
  destruct H as (Hw' & Hh' & Hside).
  destruct (Rect.colliderect (fst (reflect_from_brick ball rb vel)) rb) eqn:E;
    [|reflexivity].
  apply colliderect_pos in E; try lia.
  destruct (chosen_side ball rb); destruct Hside as (_ & Hpos & _);
    rect_simpl; lia.
Qed.

Lemma reflect_from_brick_separates_witness :
  Rect.colliderect
    (fst (reflect_from_brick (ball straddling) (brick_rect 0 0) (vel straddling)))
    (brick_rect 0 0) = false.
Proof.
  apply (reflect_from_brick_separates (ball straddling) (brick_rect 0 0)
                                      (vel straddling));
    vm_compute; reflexivity.
Defined.

Lemma sin_sign (a : R) :
  (- (PI / 2) < a < PI / 2)%R ->
  ((a < 0 -> sin a < 0) /\ (a = 0 -> sin a = 0) /\ (0 < a -> 0 < sin a))%R.
Proof.
  intros [Hlo Hhi]. pose proof PI_RGT_0 as Hpi. repeat split.
  - intros Ha. apply sin_lt_0_var; lra.
  - intros ->. apply sin_0.
  - intros Ha. apply sin_gt_0; lra.
Qed.

(** X4.  A paddle bounce sends the ball to the side of the paddle it
    landed on: to the left when the ball's centre is left of the paddle's
    middle, to the right when it is right of it, and straight up at the
    middle.  After the bounce the ball no longer intersects the paddle and
    has kept its horizontal position. *)
Theorem paddle_bounce_direction (s : State) :
  ball_shape (ball s) -> paddle_shape (paddle s) ->
  paddle_hits s = true ->
  let s' := paddle_phase s in
  let off := Rect.centerx (ball s) - Rect.left (paddle s) in
  (off < 50 -> (fst (vel s') < 0)%R) /\
  (off = 50 -> fst (vel s') = 0%R) /\
  (50 < off -> (0 < fst (vel s'))%R) /\
  Rect.colliderect (ball s') (paddle s') = false /\
  Rect.left (ball s') = Rect.left (ball s).
Proof.
  intros Hb Hp Hhit s' off.
  assert (Es : s' = set_ball (Rect.set_bottom (Rect.top (paddle s) - 1) (ball s))
                 (set_vel ((speed (vel s) * sin (paddle_angle s))%R,
                           (- Rabs (speed (vel s) * cos (paddle_angle s)))%R) s)).
  { unfold s', paddle_phase. rewrite Hhit. reflexivity. }
  unfold paddle_hits in Hhit. apply andb_true_iff in Hhit as [Hcol Hvy].
  destruct (Rlt_dec 0 (snd (vel s))) as [Hvy'|]; [|discriminate].
  pose proof (hypot_pos (fst (vel s)) (snd (vel s)) Hvy') as Hsp.
  fold (speed (vel s)) in Hsp.
  destruct (sin_sign _ (paddle_angle_range s Hb Hp Hcol)) as (Hneg & Hzero & Hpos).
  assert (Hang : paddle_angle s = ((IZR off / 100 - 1 / 2) * (PI / (12 / 10)))%R).
  { unfold paddle_angle, paddle_hit_pos, off, Rect.width.
    destruct Hp as (_ & -> & _). reflexivity. }
  pose proof PI_RGT_0 as Hpi.
  assert (Hk : (0 < PI / (12 / 10))%R).
  { apply Rdiv_lt_0_compat; lra. }
  rewrite Es. cbn [vel ball paddle set_ball set_vel fst].
  split; [|split; [|split; [|split]]].
  - intros Hoff. apply IZR_lt in Hoff.
    assert (paddle_angle s < 0)%R by (rewrite Hang; nra).
    specialize (Hneg H). nra.
  - intros Hoff. rewrite Hoff in Hang.
    assert (paddle_angle s = 0)%R by (rewrite Hang; lra).
    rewrite (Hzero H). ring.
  - intros Hoff. apply IZR_lt in Hoff.
    assert (0 < paddle_angle s)%R by (rewrite Hang; nra).
    specialize (Hpos H). nra.
  - destruct Hb as [Bw Bh]. destruct Hp as (Py & Pw & Ph).
    match goal with |- ?e = false => destruct e eqn:E; [|reflexivity] end.
    apply colliderect_pos in E; rect_simpl; lia.
  - reflexivity.
Qed.

Lemma paddle_bounce_direction_witness :
  let s := at_paddle in
  let s' := paddle_phase s in
  let off := Rect.centerx (ball s) - Rect.left (paddle s) in
  (off < 50 -> (fst (vel s') < 0)%R) /\
  (off = 50 -> fst (vel s') = 0%R) /\
  (50 < off -> (0 < fst (vel s'))%R) /\
  Rect.colliderect (ball s') (paddle s') = false /\
  Rect.left (ball s') = Rect.left (ball s).
Proof.
  apply (paddle_bounce_direction at_paddle).
  - split; reflexivity.
  - repeat split.
  - unfold paddle_hits.
    change (Rect.colliderect (ball at_paddle) (paddle at_paddle)) with true.
    cbn [andb vel at_paddle snd].
    destruct (Rlt_dec 0 300); [reflexivity|lra].
Defined.

(** ** Integration *)

Lemma py_int_abs_le (r : R) (n : Z) :
  0 <= n -> (Rabs r < IZR n + 1)%R -> Z.abs (py_int r) <= n.
Proof.
  intros Hn Hr. unfold py_int.
  destruct (Rle_dec 0 r) as [Hpos|Hneg].
  - rewrite Rabs_right in Hr by lra.
    pose proof (Int_part_nonneg r Hpos) as H0.
    destruct (base_Int_part r) as [Hle _].
    assert (H : (IZR (Int_part r) < IZR (n + 1))%R) by (rewrite plus_IZR; lra).
    apply lt_IZR in H. lia.
  - rewrite Rabs_left in Hr by lra.
    assert (Hpos : (0 <= - r)%R) by lra.
    pose proof (Int_part_nonneg _ Hpos) as H0.
    destruct (base_Int_part (- r)) as [Hle _].
    assert (H : (IZR (Int_part (- r)) < IZR (n + 1))%R) by (rewrite plus_IZR; lra).
    apply lt_IZR in H. lia.
Qed.

Lemma Rabs_lt_both (r b : R) : (Rabs r < b <-> - b < r < b)%R.
Proof.
  unfold Rabs. destruct (Rcase_abs r); split; intros; lra.
Qed.

(** X5.  A velocity component below 60 units per second in absolute value
    does not move the ball: the displacement of one step, less than one
    unit, is truncated to zero.  The other coordinate and the size are not
    affected. *)
Theorem move_phase_loses_subpixel (s : State) :
  let b := ball s in
  let b' := ball (move_phase s) in
  ((Rabs (fst (vel s)) < 60)%R -> Rect.x b' = Rect.x b) /\
  ((Rabs (snd (vel s)) < 60)%R -> Rect.y b' = Rect.y b) /\
  Rect.w b' = Rect.w b /\ Rect.h b' = Rect.h b /\
  vel (move_phase s) = vel s.
Proof.
  cbv zeta.
  assert (Hz : forall v, (Rabs v < 60)%R -> py_int (v * DT) = 0).
  { intros v Hv. apply Rabs_lt_both in Hv.
    assert (H : Z.abs (py_int (v * DT)) <= 0).
    { apply py_int_abs_le; [lia|]. apply Rabs_lt_both. unfold DT. simpl. lra. }
    lia. }
  repeat split.
  - intros Hv. unfold move_phase. rect_simpl. rewrite (Hz _ Hv). lia.
  - intros Hv. unfold move_phase. rect_simpl. rewrite (Hz _ Hv). lia.
Qed.

Lemma move_phase_loses_subpixel_witness :
  Rect.x (ball (move_phase creeping)) = Rect.x (ball creeping).
Proof.
  apply (move_phase_loses_subpixel creeping).
  cbn [creeping vel fst]. rewrite Rabs_right; lra.
Defined.

Lemma speed_components (v : Vel) :
  speed v = BALL_SPEED ->
  (Rabs (fst v) <= 320 /\ Rabs (snd v) <= 320)%R.
Proof.
  unfold speed, hypot, BALL_SPEED. intros H.
  assert (Hsq : (fst v * fst v + snd v * snd v = 320 * 320)%R).
  { rewrite <- H. symmetry. apply sqrt_sqrt. nra. }
  split; apply Rabs_le; nra.
Qed.

(** X6.  A ball of speed [BALL_SPEED] moves at most 5 units along each
    axis in the integration of one step. *)
Theorem move_phase_step_bound (s : State) :
  speed (vel s) = BALL_SPEED ->
  Z.abs (Rect.x (ball (move_phase s)) - Rect.x (ball s)) <= 5 /\
  Z.abs (Rect.y (ball (move_phase s)) - Rect.y (ball s)) <= 5.
Proof.
  intros Hs. destruct (speed_components _ Hs) as [Hx Hy].
  assert (Hb : forall v, (Rabs v <= 320)%R -> Z.abs (py_int (v * DT)) <= 5).
  { intros v Hv. apply py_int_abs_le; [lia|].
    apply Rabs_lt_both. unfold DT. simpl.
    assert (- 320 <= v <= 320)%R.
    { revert Hv. unfold Rabs. destruct (Rcase_abs v); lra. }
    lra. }
  unfold move_phase. rect_simpl.
  specialize (Hb _ Hx) as Hbx. specialize (Hb _ Hy) as Hby. lia.
Qed.

Lemma falling_speed : speed (vel falling) = BALL_SPEED.
Proof.
  unfold speed, hypot, falling, BALL_SPEED. cbn [vel fst snd].
  replace (0 * 0 + 320 * 320)%R with (320 * 320)%R by ring.
  apply sqrt_square. lra.
Qed.

Lemma move_phase_step_bound_witness :
  Z.abs (Rect.x (ball (move_phase falling)) - Rect.x (ball falling)) <= 5 /\
  Z.abs (Rect.y (ball (move_phase falling)) - Rect.y (ball falling)) <= 5.
Proof.
  apply (move_phase_step_bound falling).
  exact falling_speed.
Defined.

(** ** Speed *)

Lemma hypot_sq (a b a' b' : R) :
  (a' * a' = a * a)%R -> (b' * b' = b * b)%R -> hypot a' b' = hypot a b.
Proof. intros Ha Hb. unfold hypot. now rewrite Ha, Hb. Qed.

Lemma walls_phase_speed (s : State) :
  speed (vel (walls_phase s)) = speed (vel s).
Proof.
  destruct (walls_phase_cases s) as [Hx Hy]. unfold speed.
  apply hypot_sq.
  - destruct (Rect.left (ball s) <=? 0); [|destruct (Rect.right (ball s) >=? WIN_W)];
      destruct Hx as [_ ->]; try reflexivity.
    + apply Rabs_sq.
    + pose proof (Rabs_sq (fst (vel s))). lra.
  - destruct (Rect.top (ball s) <=? 0); destruct Hy as [_ ->]; try reflexivity.
    apply Rabs_sq.
Qed.

Lemma reflect_from_brick_speed (b rb : Rect.t) (v : Vel) :
  speed (snd (reflect_from_brick b rb v)) = speed v.
Proof.
  pose proof (reflect_from_brick_response b rb v) as H. cbv zeta in H.
  destruct H as (_ & _ & Hside).
  destruct (chosen_side b rb); destruct Hside as (-> & _);
    unfold speed; cbn [fst snd]; apply hypot_sq; ring.
Qed.

Lemma paddle_phase_speed (s : State) :
  speed (vel (paddle_phase s)) = speed (vel s).
Proof.
  unfold paddle_phase. destruct (paddle_hits s); [|reflexivity].
  cbn [vel set_ball set_vel]. unfold speed at 1. cbn [fst snd].
  apply hypot_polar, hypot_nonneg.
Qed.

Lemma launch_speed (d : Draw) : speed (launch_vel d) = BALL_SPEED.
Proof.
  unfold speed, hypot, launch_vel. cbn [fst snd].
  replace (cos (launch_angle d) * BALL_SPEED * dir_sign d *
           (cos (launch_angle d) * BALL_SPEED * dir_sign d) +
           - Rabs (sin (launch_angle d) * BALL_SPEED) *
           - Rabs (sin (launch_angle d) * BALL_SPEED))%R
    with (BALL_SPEED * BALL_SPEED)%R; [apply sqrt_square; unfold BALL_SPEED; lra|].
  pose proof (sin2_cos2 (launch_angle d)) as H. unfold Rsqr in H.
  pose proof (Rabs_sq (sin (launch_angle d) * BALL_SPEED)) as Ha.
  pose proof (dir_sign_sq d) as Hs.
  set (cs := cos (launch_angle d)) in *. set (sn := sin (launch_angle d)) in *.
  set (g := dir_sign d) in *.
  replace (cs * BALL_SPEED * g * (cs * BALL_SPEED * g))%R
    with (cs * cs * BALL_SPEED * BALL_SPEED * (g * g))%R by ring.
  rewrite Hs. nra.
Qed.

(** ** The paddle under the mouse *)

Lemma mouse_control_left (mx : Z) (s : State) :
  paddle_shape (paddle s) -> game_over s = false ->
  Rect.left (paddle (mouse_control mx s)) = Z.max 0 (Z.min (mx - 50) 700).
Proof.
  intros (Py & Pw & Ph) Ho. unfold mouse_control. rewrite Ho. cbn [negb].
  cbn [paddle set_paddle].
  unfold Rect.set_centerx. rewrite Pw. unfold PADDLE_W.
  change (Z.quot 100 2) with 50.
  destruct (Z.ltb_spec (Rect.left (Rect.set_x (mx - 50) (paddle s))) 0) as [H1|H1];
    match goal with |- context [Rect.right ?p >? WIN_W] =>
      destruct (Z.gtb_spec (Rect.right p) WIN_W) as [H2|H2] end;
    revert H1 H2; rect_simpl; lia.
Qed.

(** ** What holds while a game is played *)

Lemma new_game_play_inv (d : Draw) : play_inv (new_game d).
Proof.
  constructor.
  - apply new_game_inv.
  - cbn. unfold START_LIVES. lia.
  - cbn. lia.
  - cbn. discriminate.
  - cbn. discriminate.
  - intros _. vm_compute. congruence.
  - split; vm_compute; congruence.
  - apply launch_speed.
Qed.

Lemma reflect_keeps_top (b : Rect.t) (r c : nat) (v : Vel) :
  ball_shape b -> in_grid r c -> Rect.top b <= WIN_H ->
  Rect.top (fst (reflect_from_brick b (brick_rect r c) v)) <= WIN_H.
Proof.
  intros [Bw Bh] Hin Ht.
  destruct (brick_rect_bounds r c Hin) as (Rw & Rh & _ & _ & Ry).
  pose proof (reflect_from_brick_response b (brick_rect r c) v) as H.
  cbv zeta in H. destruct H as (Hw' & Hh' & Hside).
  destruct (chosen_side b (brick_rect r c)); destruct Hside as (_ & Hpos & Hkeep);
    rect_simpl; lia.
Qed.

Lemma walls_phase_paused (s : State) : paused (walls_phase s) = paused s.
Proof.
  unfold walls_phase.
  destruct (Rect.left (ball s) <=? 0); [|destruct (Rect.right (ball s) >=? WIN_W)];
    match goal with |- context [Rect.top ?b <=? 0] => destruct (Rect.top b <=? 0) end;
    reflexivity.
Qed.

Lemma walls_phase_wf (s : State) : wf s -> wf (walls_phase (move_phase s)).
Proof.
  intros [Hb Hp Hg Hw].
  destruct (walls_phase_frame (move_phase s)) as (Eb & _ & Ep & _).
  constructor.
  - apply walls_phase_shape, move_phase_shape, Hb.
  - rewrite Ep. exact Hp.
  - rewrite Eb. exact Hg.
  - apply walls_phase_in_window, move_phase_shape, Hb.
Qed.

Lemma hit_brick_fields (r c : nat) (s : State) :
  let s' := hit_brick r c s in
  ball s' = fst (reflect_from_brick (ball s) (brick_rect r c) (vel s)) /\
  vel s' = snd (reflect_from_brick (ball s) (brick_rect r c) (vel s)) /\
  paddle s' = paddle s /\ lives s' = lives s /\ paused s' = paused s /\
  game_over s' = all_bricks_cleared (bricks s') || game_over s /\
  is_win s' = all_bricks_cleared (bricks s') || is_win s.
Proof.
  cbv zeta. unfold hit_brick.
  destruct (reflect_from_brick (ball s) (brick_rect r c) (vel s)) as [b' v'].
  cbn [ball vel paddle lives paused game_over is_win bricks fst snd].
  destruct (all_bricks_cleared (set_brick (bricks s) r c 0)); repeat split.
Qed.

Lemma paddle_phase_top (s : State) :
  wf s -> Rect.top (ball s) <= WIN_H -> Rect.top (ball (paddle_phase s)) <= WIN_H.
Proof.
  intros [[Bw Bh] (Py & Pw & Ph) _ _] Ht. unfold paddle_phase.
  destruct (paddle_hits s); [|exact Ht].
  rect_simpl. lia.
Qed.

Lemma lost_step_play_inv (d : Draw) (s : State) :
  play_inv s -> paused s = false -> game_over s = false ->
  ball_lost (walls_phase (move_phase s)) = true ->
  inv (bottom_phase d (walls_phase (move_phase s))) ->
  play_inv (bottom_phase d (walls_phase (move_phase s))).
Proof.
  intros Hpi Hp Ho Hlostw Hinv'.
  pose proof Hpi as [Hinv Hlo Hhi Hlost Hwon Htop Hpad Hsp].
  pose proof (inv_lives _ Hinv Ho) as Hl1.
  assert (Hw : is_win s = false).
  { destruct (is_win s) eqn:E; [|reflexivity].
    rewrite (inv_over _ Hinv E) in Ho. discriminate. }
  destruct (walls_phase_frame (move_phase s)) as (_ & _ & Epw & Elw & Eow & Eww).
  change (paddle (move_phase s)) with (paddle s) in Epw.
  change (lives (move_phase s)) with (lives s) in Elw.
  change (game_over (move_phase s)) with (game_over s) in Eow.
  change (is_win (move_phase s)) with (is_win s) in Eww.
  assert (Esw : speed (vel (walls_phase (move_phase s))) = BALL_SPEED).
  { rewrite walls_phase_speed. exact Hsp. }
  revert Hinv'. unfold bottom_phase. rewrite Hlostw, Elw.
  destruct (Z.leb_spec (lives s - 1) 0) as [Hz|Hz]; intros Hinv'.
  - constructor; cbn [lives game_over is_win ball paddle vel].
    + exact Hinv'.
    + lia.
    + unfold START_LIVES in *. lia.
    + intros _ _. lia.
    + discriminate.
    + discriminate.
    + rewrite Epw. exact Hpad.
    + exact Esw.
  - constructor; cbn [lives game_over is_win ball paddle vel reset_ball_paddle].
    + exact Hinv'.
    + lia.
    + unfold START_LIVES in *. lia.
    + rewrite Eow, Ho. discriminate.
    + rewrite Eww, Hw. discriminate.
    + intros _. apply Z.leb_le. reflexivity.
    + split; apply Z.leb_le; reflexivity.
    + apply launch_speed.
Qed.

Lemma fixed_step_idle (d : Draw) (s : State) :
  paused s = true \/ game_over s = true -> fixed_step d s = Ok s.
Proof.
  intros [H|H]; unfold fixed_step; rewrite H; [reflexivity|].
  now rewrite andb_false_r.
Qed.

Lemma stay_step_play_inv (s p s' : State) :
  play_inv s -> game_over s = false ->
  wf p -> lives p = lives s -> paddle p = paddle s ->
  game_over p = false -> is_win p = false ->
  Rect.top (ball p) <= WIN_H -> speed (vel p) = BALL_SPEED ->
  bricks_phase p = Ok s' -> inv s' ->
  play_inv s'.
Proof.
  intros Hpi Ho Hwfp Elp Epp Eop Ewp Etp Esp Hstep Hinv'.
  destruct Hpi as [Hinv Hlo Hhi Hlost Hwon Htop Hpad Hsp].
  pose proof (inv_lives _ Hinv Ho) as Hl1.
  destruct (bricks_phase_first_hit p (wf_grid _ Hwfp))
    as [(r & c & Hin & Hhit & _ & Heq)|[_ Heq]];
    rewrite Heq in Hstep; injection Hstep as <-.
  - destruct (hit_brick_fields r c p) as (Fb & Fv & Fp & Fl & _ & Fo & Fw).
    constructor.
    + exact Hinv'.
    + rewrite Fl, Elp. exact Hlo.
    + rewrite Fl, Elp. exact Hhi.
    + rewrite Fo, Fw, Eop, Ewp, !orb_false_r.
      intros -> H. discriminate.
    + intros _. rewrite Fl, Elp. exact Hl1.
    + intros _. rewrite Fb. apply reflect_keeps_top; auto. apply Hwfp.
    + rewrite Fp, Epp. exact Hpad.
    + rewrite Fv, reflect_from_brick_speed. exact Esp.
  - constructor.
    + exact Hinv'.
    + rewrite Elp. exact Hlo.
    + rewrite Elp. exact Hhi.
    + rewrite Eop. discriminate.
    + rewrite Ewp. discriminate.
    + intros _. exact Etp.
    + rewrite Epp. exact Hpad.
    + exact Esp.
Qed.

Lemma fixed_step_play_inv (d : Draw) (s : State) :
  play_inv s -> exists s', fixed_step d s = Ok s' /\ play_inv s'.
Proof.
  intros Hpi. pose proof (pi_inv _ Hpi) as Hinv.
  destruct (fixed_step_inv d s Hinv) as (s' & Hstep & Hinv' & _).
  exists s'. split; [exact Hstep|].
  destruct (paused s) eqn:Hp.
  { rewrite (fixed_step_idle d s (or_introl Hp)) in Hstep.
    injection Hstep as <-. exact Hpi. }
  destruct (game_over s) eqn:Ho.
  { rewrite (fixed_step_idle d s (or_intror Ho)) in Hstep.
    injection Hstep as <-. exact Hpi. }
  pose proof (inv_wf _ Hinv) as Hwf.
  assert (Hw : is_win s = false).
  { destruct (is_win s) eqn:E; [|reflexivity].
    rewrite (inv_over _ Hinv E) in Ho. discriminate. }
  pose proof (walls_phase_wf s Hwf) as Hwfw.
  destruct (walls_phase_frame (move_phase s)) as (_ & _ & Epw & Elw & Eow & Eww).
  destruct (ball_lost (walls_phase (move_phase s))) eqn:Hlostw.
  - rewrite (life_loss_step d s Hwf Hp Ho Hlostw) in Hstep.
    injection Hstep as <-.
    now apply lost_step_play_inv.
  - assert (Estep : fixed_step d s
                    = bricks_phase (paddle_phase (walls_phase (move_phase s)))).
    { unfold fixed_step, bottom_phase. now rewrite Hp, Ho, Hlostw. }
    rewrite Estep in Hstep.
    destruct (paddle_phase_frame (walls_phase (move_phase s)))
      as (_ & _ & Epp & Elp & Eop & Ewp).
    apply (stay_step_play_inv s (paddle_phase (walls_phase (move_phase s))) s');
      auto.
    + now apply paddle_phase_wf.
    + rewrite Elp, Elw. reflexivity.
    + rewrite Epp, Epw. reflexivity.
    + rewrite Eop, Eow. exact Ho.
    + rewrite Ewp, Eww. exact Hw.
    + apply paddle_phase_top; auto.
      unfold ball_lost in Hlostw. rewrite Z.gtb_ltb in Hlostw.
      apply Z.ltb_ge in Hlostw. exact Hlostw.
    + rewrite paddle_phase_speed, walls_phase_speed. apply (pi_speed _ Hpi).
Qed.

Lemma mouse_control_play_inv (mx : Z) (s : State) :
  play_inv s -> play_inv (mouse_control mx s).
Proof.
  intros [Hinv Hlo Hhi Hlost Hwon Htop Hpad Hsp].
  destruct (handle_inv (Mouse mx) s Hinv) as (s' & He & Hinv' & _).
  cbn [handle] in He. injection He as <-.
  pose proof (wf_paddle _ (inv_wf _ Hinv)) as Hshape.
  pose proof (wf_paddle _ (inv_wf _ Hinv')) as (_ & Pw & _).
  destruct (game_over s) eqn:Ho.
  - unfold mouse_control in *. rewrite Ho in *. cbn [negb] in *.
    constructor; auto. now rewrite Ho.
  - pose proof (mouse_control_left mx s Hshape Ho) as Hl.
    assert (Ef : lives (mouse_control mx s) = lives s /\
                 game_over (mouse_control mx s) = game_over s /\
                 is_win (mouse_control mx s) = is_win s /\
                 ball (mouse_control mx s) = ball s /\
                 vel (mouse_control mx s) = vel s).
    { unfold mouse_control. rewrite Ho. cbn [negb].
      split; [|split; [|split; [|split]]]; try reflexivity.
      unfold set_paddle. cbn [game_over]. exact Ho. }
    destruct Ef as (El & Eo & Ew & Eb & Ev).
    constructor.
    + exact Hinv'.
    + rewrite El. exact Hlo.
    + rewrite El. exact Hhi.
    + rewrite Eo, Ho. discriminate.
    + rewrite Ew, El. exact Hwon.
    + rewrite Eb. intros _. apply Htop. reflexivity.
    + unfold Rect.right. unfold Rect.left in *. rewrite Hl, Pw.
      unfold WIN_W, PADDLE_W. lia.
    + rewrite Ev. exact Hsp.
Qed.

Lemma handle_play_inv (e : Event) (s : State) :
  play_inv s -> exists s', handle e s = Ok s' /\ play_inv s'.
Proof.
  intros Hpi. destruct e as [|d|mx|d]; cbn [handle].
  - eexists; split; [reflexivity|].
    destruct Hpi as [Hinv Hlo Hhi Hlost Hwon Htop Hpad Hsp].
    destruct (handle_inv KeyP s Hinv) as (s' & He & Hinv' & _).
    cbn [handle] in He. injection He as <-.
    constructor; auto.
  - eexists; split; [reflexivity|]. apply new_game_play_inv.
  - eexists; split; [reflexivity|]. now apply mouse_control_play_inv.
  - now apply fixed_step_play_inv.
Qed.

Lemma reachable_play_inv (s : State) : reachable s -> play_inv s.
Proof.
  induction 1 as [d|e s s' _ IH He].
  - apply new_game_play_inv.
  - destruct (handle_play_inv e s IH) as (s'' & He' & Hpi).
    congruence.
Qed.

(** ** Counting cells *)

Lemma dead_in_row_le (row : list Z) :
  0 <= dead_in_row row <= Z.of_nat (length row).
Proof.
  unfold dead_in_row. pose proof (count_occ_bound Z.eq_dec 0 row). lia.
Qed.

Lemma dead_in_row_full (row : list Z) :
  dead_in_row row = Z.of_nat (length row) <-> row_cleared row = true.
Proof.
  unfold dead_in_row, row_cleared.
  induction row as [|a row IH]; cbn [count_occ length forallb].
  - split; reflexivity.
  - pose proof (count_occ_bound Z.eq_dec 0 row) as Hb.
    destruct (Z.eq_dec a 0) as [->|Hne].
    + cbn [Z.eqb andb]. rewrite <- IH. lia.
    + apply Z.eqb_neq in Hne. rewrite Hne. cbn [andb]. split; [lia|discriminate].
Qed.

Lemma dead_count_le (g : Grid) : 0 <= dead_count g <= cells g.
Proof.
  unfold dead_count, cells.
  induction g as [|row g IH]; cbn [fold_right]; [lia|].
  pose proof (dead_in_row_le row). lia.
Qed.

Lemma dead_count_full (g : Grid) :
  dead_count g = cells g <-> all_bricks_cleared g = true.
Proof.
  unfold all_bricks_cleared.
  induction g as [|row g IH]; cbn [forallb].
  - split; reflexivity.
  - pose proof (dead_in_row_le row) as Hr. pose proof (dead_count_le g) as Hg.
    pose proof (dead_in_row_full row) as Hf.
    rewrite andb_true_iff, <- IH, <- Hf.
    unfold dead_count, cells in *. cbn [fold_right]. lia.
Qed.

Lemma cells_shape (g : Grid) : grid_shape g -> cells g = 60.
Proof.
  intros [Hlen Hrows]. unfold cells.
  assert (H : forall l, Forall (fun row : list Z => length row = BRICK_COLS) l ->
                        fold_right (fun row n => Z.of_nat (length row) + n) 0 l
                        = 10 * Z.of_nat (length l)).
  { induction 1 as [|row l Hrow _ IH]; cbn [fold_right length]; [reflexivity|].
    rewrite IH, Hrow. unfold BRICK_COLS. lia. }
  rewrite (H g Hrows), Hlen. reflexivity.
Qed.

(** ** Invariants of a game *)

(** X7.  Between two events of a game the number of lives lies between 0
    and [START_LIVES], and the game is Lost exactly when no life is left. *)
Theorem lost_iff_no_lives (s : State) :
  reachable s ->
  0 <= lives s <= START_LIVES /\ (phase_of s = Lost <-> lives s = 0).
Proof.
  intros Hr. destruct (reachable_play_inv s Hr)
    as [Hinv Hlo Hhi Hlost Hwon Htop Hpad Hsp].
  split; [lia|].
  pose proof (inv_lives _ Hinv) as Hl.
  unfold phase_of.
  destruct (game_over s) eqn:Ho, (is_win s) eqn:Hw, (paused s); split; intros H;
    try discriminate; try reflexivity;
    try (apply Hlost; reflexivity);
    try (specialize (Hwon eq_refl); lia);
    try (specialize (Hl eq_refl); lia).
Qed.

Lemma lost_iff_no_lives_witness :
  let s := new_game (0%R, 0%R) in
  0 <= lives s <= START_LIVES /\ (phase_of s = Lost <-> lives s = 0).
Proof.
  apply (lost_iff_no_lives (new_game (0%R, 0%R))).
  apply reach_start.
Defined.

(** X8.  Between two events of a game the score lies between 0 and 600,
    and it is 600 exactly when the game is Won. *)
Theorem score_range (s : State) :
  reachable s ->
  0 <= score s <= 600 /\ (score s = 600 <-> phase_of s = Won).
Proof.
  intros Hr. pose proof (reachable_inv s Hr) as Hinv.
  pose proof (inv_score _ Hinv) as Hs.
  pose proof (dead_count_le (bricks s)) as Hd.
  pose proof (cells_shape _ (wf_grid _ (inv_wf _ Hinv))) as Hc.
  split; [lia|].
  rewrite (won_iff s Hinv), <- all_bricks_cleared_iff, <- dead_count_full.
  lia.
Qed.

Lemma score_range_witness :
  let s := new_game (0%R, 0%R) in
  0 <= score s <= 600 /\ (score s = 600 <-> phase_of s = Won).
Proof.
  apply (score_range (new_game (0%R, 0%R))).
  apply reach_start.
Defined.

(** X9.  The ball's speed is [BALL_SPEED] between any two events of a
    game: the launch has this speed, and walls, paddle and bricks keep it. *)
Theorem speed_is_constant (s : State) :
  reachable s -> speed (vel s) = BALL_SPEED.
Proof.
  intros Hr. apply (pi_speed _ (reachable_play_inv s Hr)).
Qed.

Lemma speed_is_constant_witness :
  speed (vel (new_game (0%R, 0%R))) = BALL_SPEED.
Proof.
  apply (speed_is_constant (new_game (0%R, 0%R))).
  apply reach_start.
Defined.

(** X10.  Between two events of a game the ball is a square of side
    [BALL_SIZE] that does not stick out of the window on the left, on the
    right or at the top; and while the game is not over its top edge is not
    below the window's bottom edge. *)
Theorem ball_stays_in_play (s : State) :
  reachable s ->
  Rect.w (ball s) = BALL_SIZE /\ Rect.h (ball s) = BALL_SIZE /\
  0 <= Rect.left (ball s) /\ Rect.right (ball s) <= WIN_W /\
  0 <= Rect.top (ball s) /\
  (game_over s = false -> Rect.top (ball s) <= WIN_H).
Proof.
  intros Hr. pose proof (reachable_play_inv s Hr) as Hpi.
  destruct (inv_wf _ (pi_inv _ Hpi)) as [[Bw Bh] _ _ (Hl & Hrt & Ht)].
  repeat split; auto. apply (pi_top _ Hpi).
Qed.

Lemma ball_stays_in_play_witness :
  let s := new_game (0%R, 0%R) in
  Rect.w (ball s) = BALL_SIZE /\ Rect.h (ball s) = BALL_SIZE /\
  0 <= Rect.left (ball s) /\ Rect.right (ball s) <= WIN_W /\
  0 <= Rect.top (ball s) /\
  (game_over s = false -> Rect.top (ball s) <= WIN_H).
Proof.
  apply (ball_stays_in_play (new_game (0%R, 0%R))).
  apply reach_start.
Defined.

(** X11.  While the game is not over the mouse puts the paddle's centre
    under the pointer, limited to the window: the paddle's left edge is
    [mx - 50] kept between 0 and 700.  Nothing else changes.  When the game
    is over the mouse moves nothing. *)
Theorem mouse_control_clamps (mx : Z) (s : State) :
  paddle_shape (paddle s) ->
  let s' := mouse_control mx s in
  (game_over s = false ->
   Rect.left (paddle s') = Z.max 0 (Z.min (mx - 50) 700) /\
   paddle_shape (paddle s') /\
   (50 <= mx <= 750 -> Rect.centerx (paddle s') = mx)) /\
  (game_over s = true -> s' = s) /\
  set_paddle (paddle s) s' = s.
Proof.
  intros Hshape s'. split; [|split].
  - intros Ho. pose proof (mouse_control_left mx s Hshape Ho) as Hl.
    fold s' in Hl.
    assert (Hs : paddle_shape (paddle s')).
    { destruct Hshape as (Py & Pw & Ph).
      unfold s', mouse_control. rewrite Ho. cbn [negb paddle set_paddle].
      repeat match goal with |- context [if ?b then _ else _] => destruct b end;
        repeat split; cbn; assumption. }
    split; [exact Hl|]. split; [exact Hs|].
    intros Hmx. destruct Hs as (_ & Pw & _).
    unfold Rect.centerx. unfold Rect.left in Hl. rewrite Hl, Pw.
    unfold PADDLE_W. change (Z.quot 100 2) with 50. lia.
  - intros Ho. unfold s', mouse_control. rewrite Ho. reflexivity.
  - unfold s', mouse_control. destruct (negb (game_over s)); destruct s; reflexivity.
Qed.

Lemma mouse_control_clamps_witness :
  let s := new_game (0%R, 0%R) in
  let s' := mouse_control 10 s in
  (game_over s = false ->
   Rect.left (paddle s') = Z.max 0 (Z.min (10 - 50) 700) /\
   paddle_shape (paddle s') /\
   (50 <= 10 <= 750 -> Rect.centerx (paddle s') = 10)) /\
  (game_over s = true -> s' = s) /\
  set_paddle (paddle s) s' = s.
Proof.
  apply (mouse_control_clamps 10 (new_game (0%R, 0%R))).
  repeat split.
Defined.

(** X12.  Between two events of a game the paddle has its fixed size and
    height and lies inside the window. *)
Theorem paddle_stays_in_window (s : State) :
  reachable s ->
  Rect.y (paddle s) = PADDLE_Y /\ Rect.w (paddle s) = PADDLE_W /\
  Rect.h (paddle s) = PADDLE_H /\
  0 <= Rect.left (paddle s) /\ Rect.right (paddle s) <= WIN_W.
Proof.
  intros Hr. pose proof (reachable_play_inv s Hr) as Hpi.
  destruct (wf_paddle _ (inv_wf _ (pi_inv _ Hpi))) as (Py & Pw & Ph).
  destruct (pi_paddle _ Hpi) as [Hl Hrt].
  repeat split; assumption.
Qed.

Lemma paddle_stays_in_window_witness :
  let s := new_game (0%R, 0%R) in
  Rect.y (paddle s) = PADDLE_Y /\ Rect.w (paddle s) = PADDLE_W /\
  Rect.h (paddle s) = PADDLE_H /\
  0 <= Rect.left (paddle s) /\ Rect.right (paddle s) <= WIN_W.
Proof.
  apply (paddle_stays_in_window (new_game (0%R, 0%R))).
  apply reach_start.
Defined.

(** X13.  No event of a game raises [IndexError]: the brick scan only
    reads cells of the 6 by 10 grid, which keeps its shape. *)
Theorem no_index_error (s : State) (e : Event) :
  reachable s ->
  exists s', handle e s = Ok s' /\
             length (bricks s') = BRICK_ROWS /\
             Forall (fun row => length row = BRICK_COLS) (bricks s').
Proof.
  intros Hr. destruct (handle_wf e s (reachable_wf s Hr)) as (s' & He & Hwf).
  exists s'. split; [exact He|]. apply (wf_grid _ Hwf).
Qed.

Lemma no_index_error_witness :
  exists s', handle (Tick (0%R, 0%R)) (new_game (0%R, 0%R)) = Ok s' /\
             length (bricks s') = BRICK_ROWS /\
             Forall (fun row => length row = BRICK_COLS) (bricks s').
Proof.
  apply (no_index_error (new_game (0%R, 0%R)) (Tick (0%R, 0%R))).
  apply reach_start.
Defined.

(** ** The course of a round *)

Lemma before_scan_lives (d : Draw) (s : State) :
  lives (before_scan d s) <= lives s.
Proof.
  unfold before_scan.
  destruct (paddle_phase_frame (bottom_phase d (walls_phase (move_phase s))))
    as (_ & _ & _ & -> & _).
  destruct (walls_phase_frame (move_phase s)) as (_ & _ & _ & El & _).
  change (lives (move_phase s)) with (lives s) in El.
  unfold bottom_phase.
  destruct (ball_lost (walls_phase (move_phase s))); [|lia].
  destruct (lives (walls_phase (move_phase s)) - 1 <=? 0);
    cbn [lives reset_ball_paddle]; lia.
Qed.

(** X14.  Within a round, that is under every event but the reset, a
    dead brick stays dead, the number of dead bricks and the score do not
    decrease, and the number of lives does not increase. *)
Theorem round_is_monotone (e : Event) (s s' : State) :
  grid_shape (bricks s) ->
  (forall d, e <> KeyR d) ->
  handle e s = Ok s' ->
  (forall r c, get_brick (bricks s) r c = Ok 0 -> get_brick (bricks s') r c = Ok 0) /\
  dead_count (bricks s) <= dead_count (bricks s') /\
  score s <= score s' /\
  lives s' <= lives s.
Proof.
  intros Hg Hne He.
  destruct e as [|d|mx|d]; cbn [handle] in He.
  - injection He as <-. unfold toggle_pause. cbn [bricks score lives].
    repeat split; auto; lia.
  - now destruct (Hne d).
  - injection He as <-. unfold mouse_control, set_paddle.
    destruct (negb (game_over s)); cbn [bricks score lives];
      repeat split; auto; lia.
  - unfold fixed_step in He.
    destruct (negb (paused s) && negb (game_over s)).
    2:{ injection He as <-. repeat split; auto; lia. }
    fold (before_scan d s) in He.
    destruct (before_scan_frame d s) as [Eb Es].
    pose proof (before_scan_lives d s) as El.
    assert (Hg1 : grid_shape (bricks (before_scan d s))) by now rewrite Eb.
    destruct (bricks_phase_first_hit _ Hg1)
      as [(r & c & Hin & Hhit & _ & Heq)|[_ Heq]];
      rewrite Heq in He; injection He as <-.
    + destruct (hittable_alive _ _ _ Hhit) as (b & Hget & Hnz & _).
      destruct (hit_brick_fields r c (before_scan d s)) as (_ & _ & _ & Fl & _).
      pose proof (dead_count_set_brick _ _ _ _ Hget Hnz) as Hd.
      assert (Fb : bricks (hit_brick r c (before_scan d s))
                   = set_brick (bricks s) r c 0).
      { unfold hit_brick. destruct (reflect_from_brick _ _ _). cbn [bricks].
        now rewrite Eb. }
      assert (Fs : score (hit_brick r c (before_scan d s)) = score s + 10).
      { unfold hit_brick. destruct (reflect_from_brick _ _ _). cbn [score]. lia. }
      rewrite Eb in Hget, Hd. rewrite Fb, Fs, Fl.
      repeat split; try lia.
      intros r0 c0 H0. rewrite get_set_brick_other; [exact H0|].
      intros [= -> ->]. rewrite Hget in H0. injection H0 as ->. now apply Hnz.
    + rewrite Eb, Es. repeat split; auto; lia.
Qed.

Lemma round_is_monotone_witness :
  let s := straddling in
  let s' := toggle_pause s in
  (forall r c, get_brick (bricks s) r c = Ok 0 -> get_brick (bricks s') r c = Ok 0) /\
  dead_count (bricks s) <= dead_count (bricks s') /\
  score s <= score s' /\
  lives s' <= lives s.
Proof.
  apply (round_is_monotone KeyP straddling (toggle_pause straddling)).
  - exact reset_bricks_shape.
  - intros d. discriminate.
  - reflexivity.
Defined.

(** X15.  A game that is over stays as it is until the reset: under every
    other event the state is unchanged, up to the pause flag, and shows the
    same outcome. *)
Theorem game_over_is_terminal (e : Event) (s s' : State) :
  game_over s = true ->
  (forall d, e <> KeyR d) ->
  handle e s = Ok s' ->
  (s' = s \/ s' = toggle_pause s) /\ phase_of s' = phase_of s.
Proof.
  intros Ho Hne He.
  destruct e as [|d|mx|d]; cbn [handle] in He.
  - injection He as <-. split; [now right|].
    unfold phase_of, toggle_pause. cbn [game_over is_win]. now rewrite Ho.
  - now destruct (Hne d).
  - injection He as <-. unfold mouse_control. rewrite Ho. cbn [negb]. auto.
  - unfold fixed_step in He. rewrite Ho, andb_false_r in He.
    injection He as <-. auto.
Qed.

Lemma game_over_is_terminal_witness :
  (toggle_pause lost_game = lost_game \/
   toggle_pause lost_game = toggle_pause lost_game) /\
  phase_of (toggle_pause lost_game) = phase_of lost_game.
Proof.
  apply (game_over_is_terminal KeyP lost_game (toggle_pause lost_game)).
  - reflexivity.
  - intros d. discriminate.
  - reflexivity.
Defined.

(** X16.  [all_bricks_cleared] answers true exactly when every cell of the
    grid holds 0, that is when the dead cells are all the cells; it answers
    true on a grid without rows or without cells. *)
Theorem all_bricks_cleared_spec (g : Grid) :
  (all_bricks_cleared g = true <->
   forall r c b, get_brick g r c = Ok b -> b = 0) /\
  (all_bricks_cleared g = true <-> dead_count g = cells g) /\
  all_bricks_cleared [] = true /\
  all_bricks_cleared (repeat [] (length g)) = true.
Proof.
  split; [apply all_bricks_cleared_iff|].
  split; [symmetry; apply dead_count_full|].
  split; [reflexivity|].
  induction g as [|row g IH]; [reflexivity|exact IH].
Qed.

(** X17.  The reset builds the same game from every state: all 60
    bricks alive, score 0, [START_LIVES] lives, paddle and ball at their
    start places, the game running; and this state is a start state of the
    program. *)
Theorem reset_restores (d : Draw) (s : State) :
  exists s', handle (KeyR d) s = Ok s' /\
    reachable s' /\
    (forall r c, in_grid r c -> get_brick (bricks s') r c = Ok 1) /\
    dead_count (bricks s') = 0 /\
    score s' = 0 /\ lives s' = START_LIVES /\
    paddle s' = start_paddle /\ ball s' = start_ball /\
    phase_of s' = Playing.
Proof.
  exists (new_game d). split; [reflexivity|]. split; [apply reach_start|].
  split; [|repeat split].
  intros r c [Hr Hc]. cbn [new_game reset_ball_paddle bricks].
  unfold get_brick, reset_bricks.
  rewrite (nth_error_repeat _ Hr), (nth_error_repeat _ Hc). reflexivity.
Qed.



(** ** Drawing *)

(** X19.  The colour of every row of the grid has its three components
    between 0 and 255, and different rows have different colours.  The
    first component is not capped: from row 7 on it exceeds 255. *)
Theorem brick_color_valid (r : nat) :
  (r < BRICK_ROWS)%nat ->
  (let '(cr, cg, cb) := brick_color r in
   0 <= cr <= 255 /\ 0 <= cg <= 255 /\ 0 <= cb <= 255) /\
  (forall r', brick_color r' = brick_color r -> r' = r) /\
  (forall r', (7 <= r')%nat -> 255 < fst (fst (brick_color r'))).
Proof.
  intros Hr. unfold BRICK_ROWS in Hr. unfold brick_color. cbv zeta. cbn [fst].
  split; [lia|]. split.
  - intros r' H. apply (f_equal (fun x => fst (fst x))) in H.
    cbn [fst] in H. lia.
  - intros r' Hr'. lia.
Qed.

Lemma brick_color_valid_witness :
  (let '(cr, cg, cb) := brick_color 5 in
   0 <= cr <= 255 /\ 0 <= cg <= 255 /\ 0 <= cb <= 255) /\
  (forall r', brick_color r' = brick_color 5 -> r' = 5%nat) /\
  (forall r', (7 <= r')%nat -> 255 < fst (fst (brick_color r'))).
Proof.
  apply (brick_color_valid 5).
  unfold BRICK_ROWS. lia.
Defined.

Lemma draw_cols_spec (g : Grid) (r : nat) (cs : list nat) :
  (forall c, In c cs -> exists b, get_brick g r c = Ok b) ->
  exists l, draw_cols g r cs = Ok l /\
    forall x, In x l <->
      exists c b, In c cs /\ get_brick g r c = Ok b /\ b <> 0 /\
                  x = (brick_rect r c, brick_color r).
Proof.
  induction cs as [|c cs IH]; intros Hget; cbn [draw_cols].
  - exists []. split; [reflexivity|]. intros x. split; [intros []|].
    intros (c & b & [] & _).
  - destruct (Hget c (or_introl eq_refl)) as [b Hb].
    destruct IH as (l & Hl & Hspec).
    { intros c' Hc'. apply Hget. now right. }
    rewrite Hb, Hl. cbn [bind].
    eexists. split; [reflexivity|]. intros x.
    destruct (Z.eqb_spec b 0) as [Hz|Hnz]; cbn [negb].
    + rewrite Hspec. split.
      * intros (c' & b' & Hin & H). exists c', b'. split; [now right|exact H].
      * intros (c' & b' & [<-|Hin] & Hg' & Hb' & Hx).
        -- rewrite Hb in Hg'. injection Hg' as <-. contradiction.
        -- exists c', b'. auto.
    + cbn [In]. rewrite Hspec. split.
      * intros [<-|(c' & b' & Hin & H)].
        -- exists c, b. split; [now left|]. repeat split; auto.
        -- exists c', b'. split; [now right|exact H].
      * intros (c' & b' & [<-|Hin] & Hg' & Hb' & Hx).
        -- left. now symmetry.
        -- right. exists c', b'. auto.
Qed.

Lemma draw_rows_spec (g : Grid) (rs : list nat) :
  grid_shape g ->
  (forall r, In r rs -> (r < BRICK_ROWS)%nat) ->
  exists l, draw_rows g rs = Ok l /\
    forall x, In x l <->
      exists r c b, In r rs /\ (c < BRICK_COLS)%nat /\ get_brick g r c = Ok b /\
                    b <> 0 /\ x = (brick_rect r c, brick_color r).
Proof.
  intros Hg. induction rs as [|r rs IH]; intros Hrs; cbn [draw_rows].
  - exists []. split; [reflexivity|]. intros x. split; [intros []|].
    intros (r & c & b & [] & _).
  - destruct (draw_cols_spec g r (seq 0 BRICK_COLS)) as (row & Hrow & Hspec).
    { intros c Hc. apply get_brick_in_grid; auto.
      split; [apply Hrs; now left|]. apply in_seq in Hc. lia. }
    destruct IH as (l & Hl & Hlspec).
    { intros r' Hr'. apply Hrs. now right. }
    rewrite Hrow, Hl. cbn [bind].
    eexists. split; [reflexivity|]. intros x.
    rewrite in_app_iff, Hspec, Hlspec. split.
    + intros [(c & b & Hc & H)|(r' & c & b & Hr' & H)].
      * exists r, c, b. split; [now left|]. split; [|exact H].
        apply in_seq in Hc. lia.
      * exists r', c, b. split; [now right|exact H].
    + intros (r' & c & b & [<-|Hr'] & Hc & H).
      * left. exists c, b. split; [|exact H]. apply in_seq. lia.
      * right. exists r', c, b. auto.
Qed.

(** X20.  On a grid of the right shape the drawing loops paint exactly the
    alive bricks: each at the rectangle of its cell, in the colour of its
    row, and no dead one. *)
Theorem draw_bricks_paints_alive (g : Grid) :
  grid_shape g ->
  exists l, draw_bricks g = Ok l /\
    forall rb col, In (rb, col) l <->
      exists r c b, in_grid r c /\ get_brick g r c = Ok b /\ b <> 0 /\
                    rb = brick_rect r c /\ col = brick_color r.
Proof.
  intros Hg.
  destruct (draw_rows_spec g (seq 0 BRICK_ROWS) Hg) as (l & Hl & Hspec).
  { intros r Hr. apply in_seq in Hr. lia. }
  exists l. split; [exact Hl|]. intros rb col. rewrite Hspec. split.
  - intros (r & c & b & Hr & Hc & Hget & Hb & [= -> ->]).
    exists r, c, b. repeat split; auto. apply in_seq in Hr. lia.
  - intros (r & c & b & [Hr Hc] & Hget & Hb & -> & ->).
    exists r, c, b. repeat split; auto. apply in_seq. lia.
Qed.

Lemma draw_bricks_paints_alive_witness :
  exists l, draw_bricks reset_bricks = Ok l /\
    forall rb col, In (rb, col) l <->
      exists r c b, in_grid r c /\ get_brick reset_bricks r c = Ok b /\ b <> 0 /\
                    rb = brick_rect r c /\ col = brick_color r.
Proof.
  apply (draw_bricks_paints_alive reset_bricks).
  exact reset_bricks_shape.
Defined.

(** ** The frame loop *)




(** X22.  A step in which the ball bounces off the paddle breaks no brick:
    the bounce leaves the ball just above the paddle, far below the grid,
    so the scan that follows changes nothing. *)
Theorem paddle_bounce_breaks_no_brick (s : State) :
  wf s -> paddle_hits s = true ->
  bricks_phase (paddle_phase s) = Ok (paddle_phase s) /\
  forall r c, in_grid r c -> hittable (paddle_phase s) r c = false.
Proof.
  intros Hwf Hhit.
  pose proof (paddle_phase_wf s Hwf) as Hwf'.
  assert (Ht : 300 <= Rect.top (ball (paddle_phase s))).
  { destruct Hwf as [[Bw Bh] (Py & Pw & Ph) _ _].
    unfold paddle_phase. rewrite Hhit. rect_simpl. lia. }
  split; [now apply no_hit_bricks_phase|].
  intros r c Hin. unfold hittable.
  destruct (get_brick (bricks (paddle_phase s)) r c); [|reflexivity].
  rewrite (no_brick_below _ _ _ (wf_ball _ Hwf') Hin Ht). apply andb_false_r.
Qed.

Lemma at_paddle_wf : wf at_paddle.
Proof.
  constructor.
  - split; reflexivity.
  - repeat split.
  - exact reset_bricks_shape.
  - repeat split; vm_compute; congruence.
Qed.

Lemma paddle_bounce_breaks_no_brick_witness :
  bricks_phase (paddle_phase at_paddle) = Ok (paddle_phase at_paddle) /\
  forall r c, in_grid r c -> hittable (paddle_phase at_paddle) r c = false.
Proof.
  apply (paddle_bounce_breaks_no_brick at_paddle).
  - exact at_paddle_wf.
  - unfold paddle_hits.
    change (Rect.colliderect (ball at_paddle) (paddle at_paddle)) with true.
    cbn [andb vel at_paddle snd].
    destruct (Rlt_dec 0 300); [reflexivity|lra].
Defined.
